(** * The SSE notification layer of the stock-scanner server

    A shallow embedding of [SSEManager] (services/analysisService.ts, the
    version with short-polling queues) and of the poll/push connection
    handler [handleSSEConnection] (controllers/sseController.ts), with the
    properties of the channel manager stated and proved over it.

    - [Js]: the JavaScript built-ins the code calls ([JSON.stringify],
      [Date.prototype.toISOString], [String.prototype.includes]);
    - the world: registry ([clients]), queue store ([messageQueues]), the
      response objects the registry points to, the clock, the pending
      [setTimeout] callbacks and the trace of calls made on the outside
      (writes, ends, console);
    - a state-and-exception monad [M] in which the methods are written
      statement by statement as in the source;
    - the vocabulary of the statements and the scenarios they are tried on;
    - the stock-code functions of utils/stockUtils.ts ([detectMarket],
      [normalizeStockCode], [validateStockCode], the price and score
      hashes) and the recommendation the controllers derive from a score;
    - lemmas that run each method, and the properties themselves: of the
      channel manager first, then of the handler's push branch and of
      failing sends, then of the stock codes. *)

From stdpp Require Import gmap strings list fin_maps.
From Stdlib Require Import ZArith Ascii DecimalString Lia.

Set Warnings "-register-all".
Open Scope Z_scope.

(** ** JavaScript built-ins *)

Module Js.

(** Strings are sequences of bytes (UTF-8); the line feed and the double
    quote are spelled by their codes. *)
Definition nl : string := String "010"%char EmptyString.
Definition dquote : string := String "034"%char EmptyString.

(** [s.includes(pat)] *)
Definition includes (pat s : string) : bool :=
  match String.index 0 pat s with
  | Some _ => true
  | None => false
  end.

(** [!s] for a value that is a string or [undefined]. *)
Definition falsy (s : option string) : bool :=
  match s with
  | None => true
  | Some EmptyString => true
  | Some _ => false
  end.

(** Structured data, the [unknown] payloads that reach [JSON.stringify]:
    numbers are integers, object members are kept in insertion order. *)
Inductive json : Type :=
| JNull
| JBool (b : bool)
| JNum (n : Z)
| JStr (s : string)
| JArr (items : list json)
| JObj (members : list (string * json)).

Definition hex_digit (n : N) : ascii :=
  match n with
  | 0%N => "0" | 1%N => "1" | 2%N => "2" | 3%N => "3"
  | 4%N => "4" | 5%N => "5" | 6%N => "6" | 7%N => "7"
  | 8%N => "8" | 9%N => "9" | 10%N => "a" | 11%N => "b"
  | 12%N => "c" | 13%N => "d" | 14%N => "e" | _ => "f"
  end%char.

(** One character inside a JSON string literal (ECMA-262, QuoteJSONString):
    the quote, the backslash and the control characters are escaped,
    everything else is copied. *)
Definition escape_char (c : ascii) : string :=
  let n := N_of_ascii c in
  let bs := String "092"%char EmptyString in
  if (n =? 34)%N then bs +:+ dquote
  else if (n =? 92)%N then bs +:+ bs
  else if (n =? 8)%N then bs +:+ "b"
  else if (n =? 12)%N then bs +:+ "f"
  else if (n =? 10)%N then bs +:+ "n"
  else if (n =? 13)%N then bs +:+ "r"
  else if (n =? 9)%N then bs +:+ "t"
  else if (n <? 32)%N then
    bs +:+ "u00" +:+ String (hex_digit (n / 16)) (String (hex_digit (n mod 16)) EmptyString)
  else String c EmptyString.

Fixpoint escape (s : string) : string :=
  match s with
  | EmptyString => EmptyString
  | String c rest => escape_char c +:+ escape rest
  end.

Definition quote (s : string) : string := dquote +:+ escape s +:+ dquote.

Fixpoint join (sep : string) (parts : list string) : string :=
  match parts with
  | [] => EmptyString
  | [p] => p
  | p :: rest => p +:+ sep +:+ join sep rest
  end.

(** [JSON.stringify(v)] without indentation. *)
Fixpoint JSON_stringify (v : json) : string :=
  match v with
  | JNull => "null"
  | JBool true => "true"
  | JBool false => "false"
  | JNum n => NilZero.string_of_int (Z.to_int n)
  | JStr s => quote s
  | JArr items => "[" +:+ join "," (map JSON_stringify items) +:+ "]"
  | JObj members =>
      "{" +:+ join ","
               (map (fun kv => match kv with
                               | (k, x) => quote k +:+ ":" +:+ JSON_stringify x
                               end) members) +:+ "}"
  end.

(** [n] written with exactly [width] decimal digits (the low ones). *)
Fixpoint digits (width : nat) (n : Z) : string :=
  match width with
  | O => EmptyString
  | S k => digits k (n / 10) +:+ String (ascii_of_N (48 + Z.to_N (n mod 10))) EmptyString
  end.

(** Year, month and day of the day number [d] counted from 1970-01-01
    (proleptic Gregorian calendar). *)
Definition civil_from_days (d : Z) : Z * Z * Z :=
  let z := d + 719468 in
  let era := z / 146097 in
  let doe := z - era * 146097 in
  let yoe := (doe - doe / 1460 + doe / 36524 - doe / 146096) / 365 in
  let doy := doe - (365 * yoe + yoe / 4 - yoe / 100) in
  let mp := (5 * doy + 2) / 153 in
  let day := doy - (153 * mp + 2) / 5 + 1 in
  let month := if mp <? 10 then mp + 3 else mp - 9 in
  let year := yoe + era * 400 + (if month <=? 2 then 1 else 0) in
  (year, month, day).

(** [new Date(t).toISOString()] for a time value [t] in milliseconds since
    the epoch: [YYYY-MM-DDTHH:mm:ss.sssZ], with the expanded six-digit
    signed year outside 0000..9999. *)
Definition toISOString (t : Z) : string :=
  let '(year, month, day) := civil_from_days (t / 86400000) in
  let ms := t mod 86400000 in
  let yyyy :=
    if (0 <=? year) && (year <=? 9999) then digits 4 year
    else (if year <? 0 then "-" else "+") +:+ digits 6 (Z.abs year) in
  yyyy +:+ "-" +:+ digits 2 month +:+ "-" +:+ digits 2 day +:+ "T"
    +:+ digits 2 (ms / 3600000) +:+ ":" +:+ digits 2 (ms / 60000 mod 60) +:+ ":"
    +:+ digits 2 (ms / 1000 mod 60) +:+ "." +:+ digits 3 (ms mod 1000) +:+ "Z".

End Js.

Import Js.

(** ** Insertion-ordered maps

    [clients] is a JavaScript [Map]: [broadcast] iterates over it, and a
    [Map] iterates in insertion order, so it is kept as an association list.
    [set] on a key already present replaces the value where it stands. *)

Section OrderedMap.
Context {V : Type}.

Fixpoint Map_get (k : string) (m : list (string * V)) : option V :=
  match m with
  | [] => None
  | (k', v) :: rest => if decide (k' = k) then Some v else Map_get k rest
  end.

Definition Map_has (k : string) (m : list (string * V)) : bool :=
  match Map_get k m with
  | Some _ => true
  | None => false
  end.

Fixpoint Map_set (k : string) (v : V) (m : list (string * V)) : list (string * V) :=
  match m with
  | [] => [(k, v)]
  | (k', v') :: rest =>
      if decide (k' = k) then (k, v) :: rest else (k', v') :: Map_set k v rest
  end.

Fixpoint Map_delete (k : string) (m : list (string * V)) : list (string * V) :=
  match m with
  | [] => []
  | (k', v) :: rest =>
      if decide (k' = k) then Map_delete k rest else (k', v) :: Map_delete k rest
  end.

Definition Map_size (m : list (string * V)) : Z := Z.of_nat (length m).

End OrderedMap.

(** ** The world the manager runs in *)

(** A thrown error, as far as the code inspects it ([err.code],
    [err.message]). *)
Record ErrnoException : Type := mkErrno {
  code : option string;
  message : string
}.

(** Identity of a response object. *)
Definition ref : Type := nat.

(** An express [Response] as the manager sees it: the two flags that
    [removeClient] reads, and what its next calls of [write] and [end] will
    do ([None]: the call returns, [Some e]: it throws [e]; once the list is
    used up every call returns). *)
Record Response : Type := mkResponse {
  writable : bool;
  destroyed : bool;
  script : list (option ErrnoException)
}.

Definition open_Response : Response :=
  {| writable := true; destroyed := false; script := [] |}.

(** Calls that leave the process, in the order they are made. *)
Inductive Event : Type :=
| EvWrite (r : ref) (chunk : string) (thrown : option ErrnoException)
| EvEnd (r : ref) (thrown : option ErrnoException)
| EvSetHeader (r : ref) (name value : string)
| EvFlushHeaders (r : ref)
| EvStatusJson (r : ref) (status : Z) (body : string)
| EvWarn (text : string)
| EvError (text : string) (err : ErrnoException).

(** An entry of [messageQueues]. *)
Record QueuedMessage : Type := mkQueued {
  eventType : string;
  data : json
}.

Record World : Type := mkWorld {
  clients : list (string * ref);
  messageQueues : gmap string (list QueuedMessage);
  heap : gmap ref Response;
  now : Z;
  timers : list (Z * string);
  trace : list Event
}.

(** Field updates. *)
Definition set_clients (f : list (string * ref) -> list (string * ref)) (w : World) : World :=
  mkWorld (f (clients w)) (messageQueues w) (heap w) (now w) (timers w) (trace w).
Definition set_messageQueues
    (f : gmap string (list QueuedMessage) -> gmap string (list QueuedMessage)) (w : World) : World :=
  mkWorld (clients w) (f (messageQueues w)) (heap w) (now w) (timers w) (trace w).
Definition set_heap (f : gmap ref Response -> gmap ref Response) (w : World) : World :=
  mkWorld (clients w) (messageQueues w) (f (heap w)) (now w) (timers w) (trace w).
Definition set_timers (f : list (Z * string) -> list (Z * string)) (w : World) : World :=
  mkWorld (clients w) (messageQueues w) (heap w) (now w) (f (timers w)) (trace w).
Definition emit (e : Event) (w : World) : World :=
  mkWorld (clients w) (messageQueues w) (heap w) (now w) (timers w) (trace w ++ [e]).

(** The world of a freshly started process ([new SSEManager()]). *)
Definition boot (t : Z) : World :=
  mkWorld [] ∅ ∅ t [] [].

(** The object behind a reference; one that nothing has touched yet is an
    open response. *)
Definition deref (w : World) (r : ref) : Response :=
  default open_Response (heap w !! r).

(** ** Statements: state and exceptions *)

Inductive completion (A : Type) : Type :=
| Normal (a : A)
| Throw (e : ErrnoException).
Arguments Normal {A} a.
Arguments Throw {A} e.

Definition M (A : Type) : Type := World -> completion A * World.

Definition ret {A} (a : A) : M A := fun w => (Normal a, w).

Definition bind {A B} (m : M A) (k : A -> M B) : M B :=
  fun w =>
    match m w with
    | (Normal a, w') => k a w'
    | (Throw e, w') => (Throw e, w')
    end.

(** [try { body } catch (error) { handler }] *)
Definition try_catch {A} (body : M A) (handler : ErrnoException -> M A) : M A :=
  fun w =>
    match body w with
    | (Normal a, w') => (Normal a, w')
    | (Throw e, w') => handler e w'
    end.

Definition gets {A} (f : World -> A) : M A := fun w => (Normal (f w), w).
Definition modify (f : World -> World) : M unit := fun w => (Normal tt, f w).

#[global] Instance M_ret : MRet M := @ret.
#[global] Instance M_bind : MBind M := fun A B k m => bind m k.

(** [for (const x of xs) { body x }] and [xs.forEach(body)] *)
Fixpoint for_of {A} (xs : list A) (body : A -> M unit) : M unit :=
  match xs with
  | [] => mret tt
  | x :: rest => body x;; for_of rest body
  end.

(** [for (const x of xs) { ... }] with the locals the body updates carried
    along in [acc]. *)
Fixpoint for_of_acc {A S} (xs : list A) (body : A -> S -> M S) (acc : S) : M S :=
  match xs with
  | [] => mret acc
  | x :: rest => acc' ← body x acc; for_of_acc rest body acc'
  end.

(** The world after a statement, and its value. *)
Definition exec {A} (m : M A) (w : World) : World := snd (m w).
Definition eval {A} (m : M A) (w : World) : completion A := fst (m w).

(** *** Calls on a response *)

(** What the next call on [r] does, and [r] with that call used up. *)
Definition next_call (o : Response) : option ErrnoException * Response :=
  match script o with
  | [] => (None, o)
  | outcome :: rest =>
      (outcome, {| writable := writable o; destroyed := destroyed o; script := rest |})
  end.

(** [response.write(chunk)] *)
Definition Response_write (r : ref) (chunk : string) : M unit :=
  fun w =>
    let '(outcome, o) := next_call (deref w r) in
    let w' := emit (EvWrite r chunk outcome) (set_heap <[r := o]> w) in
    match outcome with
    | None => (Normal tt, w')
    | Some e => (Throw e, w')
    end.

(** [response.end()]: a response that was ended is no longer writable. *)
Definition Response_end (r : ref) : M unit :=
  fun w =>
    let '(outcome, o) := next_call (deref w r) in
    match outcome with
    | None =>
        (Normal tt,
         emit (EvEnd r None)
           (set_heap <[r := {| writable := false; destroyed := destroyed o;
                               script := script o |}]> w))
    | Some e => (Throw e, emit (EvEnd r (Some e)) (set_heap <[r := o]> w))
    end.

Definition console_warn (text : string) : M unit := modify (emit (EvWarn text)).
Definition console_error (text : string) (err : ErrnoException) : M unit :=
  modify (emit (EvError text err)).

(** [new Date()]: the clock, in milliseconds since the epoch. *)
Definition Date_now : M Z := gets now.

(** *** Timers

    The only callback ever handed to [setTimeout] is the deletion of a
    client's queue, so a pending timer is its due time and that client id.
    All delays are equal, so [timers] is in firing order. *)
Definition setTimeout_delete_queue (clientId : string) (delay : Z) : M unit :=
  fun w => (Normal tt, set_timers (fun ts => ts ++ [(now w + delay, clientId)]) w).

(** [d] milliseconds pass with the process idle: the callbacks that have
    come due run, each deleting its queue. *)
Definition elapse (d : Z) (w : World) : World :=
  let t := now w + d in
  let due := filter (fun x => x.1 <= t) (timers w) in
  mkWorld (clients w)
          (foldl (fun qs x => delete x.2 qs) (messageQueues w) due)
          (heap w) t
          (filter (fun x => t < x.1) (timers w))
          (trace w).

(** ** SSEManager *)

Definition code_is (err : ErrnoException) (c : string) : bool :=
  bool_decide (code err = Some c).
Definition message_is (err : ErrnoException) (m : string) : bool :=
  bool_decide (message err = m).

(** [err.code === 'ECONNRESET' || err.code === 'EPIPE' || err.message === 'aborted'] *)
Definition normal_disconnect (err : ErrnoException) : bool :=
  code_is err "ECONNRESET" || code_is err "EPIPE" || message_is err "aborted".

(** The object literal [{ event: eventType, data: data, timestamp: ... }]. *)
Definition message_object (eventType : string) (data : json) (t : Z) : json :=
  JObj [("event", JStr eventType); ("data", data); ("timestamp", JStr (toISOString t))].

(** The two chunks of a frame. *)
Definition event_line (eventType : string) : string :=
  "event: " +:+ eventType +:+ nl.
Definition data_line (message : json) : string :=
  "data: " +:+ JSON_stringify message +:+ nl +:+ nl.

(** [addClient(clientId, response?)] *)
Definition addClient (clientId : string) (response : option ref) : M unit :=
  match response with
  | Some r => modify (set_clients (Map_set clientId r))
  | None => mret tt
  end;;
  qs ← gets messageQueues;
  match qs !! clientId with
  | None => modify (set_messageQueues <[clientId := []]>)
  | Some _ => mret tt
  end.

(** [removeClient(clientId)]; [clients.has] followed by [clients.get(..)!]
    is the match on [Map_get]. *)
Definition removeClient (clientId : string) : M unit :=
  cs ← gets clients;
  match Map_get clientId cs with
  | Some response =>
      try_catch
        (o ← gets (fun w => deref w response);
         if writable o && negb (destroyed o) then Response_end response else mret tt)
        (fun err =>
           if negb (code_is err "ECONNRESET") && negb (code_is err "EPIPE")
              && negb (message_is err "aborted")
           then console_error ("Error closing SSE connection for " +:+ clientId +:+ ":") err
           else mret tt);;
      modify (set_clients (Map_delete clientId));;
      setTimeout_delete_queue clientId 60000
  | None => mret tt
  end.

(** [if (queue.length > 1000) { queue.shift(); }] *)
Definition shift_over_1000 (queue : list QueuedMessage) : list QueuedMessage :=
  if 1000 <? Z.of_nat (length queue) then tail queue else queue.

(** The [catch (error)] block of [sendToClient]. *)
Definition sendToClient_catch (clientId : string) (err : ErrnoException) : M bool :=
  (if normal_disconnect err then removeClient clientId
   else
     console_error ("Error sending SSE message to " +:+ clientId +:+ ":") err;;
     removeClient clientId);;
  mret false.

(** [sendToClient(clientId, eventType, data)] *)
Definition sendToClient (clientId eventType : string) (data : json) : M bool :=
  cs ← gets clients;
  match Map_get clientId cs with
  | None =>
      qs ← gets messageQueues;
      match qs !! clientId with
      | Some queue =>
          modify (set_messageQueues <[clientId := queue ++ [mkQueued eventType data]]>);;
          mret true
      | None =>
          console_warn ("Client " +:+ clientId +:+ " not found and no message queue");;
          mret false
      end
  | Some response =>
      try_catch
        (t ← Date_now;
         let message := message_object eventType data t in
         Response_write response (event_line eventType);;
         Response_write response (data_line message);;
         qs ← gets messageQueues;
         match qs !! clientId with
         | Some queue =>
             modify (set_messageQueues
                       <[clientId := shift_over_1000 (queue ++ [mkQueued eventType data])]>)
         | None => mret tt
         end;;
         mret true)
        (sendToClient_catch clientId)
  end.

(** [getPendingMessages(clientId)] *)
Definition getPendingMessages (clientId : string) : M (list QueuedMessage) :=
  qs ← gets messageQueues;
  match qs !! clientId with
  | None => mret []
  | Some [] => mret []
  | Some queue =>
      modify (set_messageQueues <[clientId := []]>);;
      mret queue
  end.

(** The body of the loop of [broadcast]; [deadClients] is its local. *)
Definition broadcast_one (eventType : string) (message : json)
    (entry : string * ref) (deadClients : list string) : M (list string) :=
  let '(clientId, response) := entry in
  try_catch
    (Response_write response (event_line eventType);;
     Response_write response (data_line message);;
     mret deadClients)
    (fun err =>
       (if negb (code_is err "ECONNRESET") && negb (code_is err "EPIPE")
           && negb (message_is err "aborted")
        then console_error ("Error broadcasting to " +:+ clientId +:+ ":") err
        else mret tt);;
       mret (deadClients ++ [clientId])).

(** [broadcast(eventType, data)]; nothing in the loop changes [clients], so
    iterating [clients.entries()] is iterating the entries at its start. *)
Definition broadcast (eventType : string) (data : json) : M unit :=
  t ← Date_now;
  let message := message_object eventType data t in
  cs ← gets clients;
  deadClients ← for_of_acc cs (broadcast_one eventType message) [];
  for_of deadClients removeClient.

(** [getClientCount()] *)
Definition getClientCount : M Z := gets (fun w => Map_size (clients w)).

(** ** The connection handler *)

(** What the handler reads of the request. *)
Record Request : Type := mkRequest {
  query_client_id : option string;
  query_poll : option string;
  query_last_event_id : option string;
  header_user_agent : option string
}.

(** [`event: connected\ndata: ${JSON.stringify({ client_id, message })}\n\n`] *)
Definition connected_frame (clientId : string) : string :=
  "event: connected" +:+ nl +:+ "data: "
    +:+ JSON_stringify (JObj [("client_id", JStr clientId); ("message", JStr "Connected")])
    +:+ nl +:+ nl.

Definition isShortPolling (req : Request) : bool :=
  let userAgent := default EmptyString (header_user_agent req) in
  bool_decide (query_poll req = Some "true")
  || includes "wechatdevtools" userAgent || includes "MicroMessenger" userAgent.

Definition setHeader (res : ref) (name value : string) : M unit :=
  modify (emit (EvSetHeader res name value)).

Definition sse_headers (res : ref) (connection : string) : M unit :=
  setHeader res "Content-Type" "text/event-stream";;
  setHeader res "Cache-Control" "no-cache, no-transform";;
  setHeader res "Connection" connection;;
  setHeader res "X-Accel-Buffering" "no";;
  setHeader res "Access-Control-Allow-Origin" "*";;
  setHeader res "Access-Control-Allow-Credentials" "true".

(** The short-polling branch from [addClient] to the finished
    [responseContent]. *)
Definition poll_response (clientId : string) (hasLastEventId : bool) : M string :=
  addClient clientId None;;
  pendingMessages ← getPendingMessages clientId;
  let responseContent := EmptyString in
  let responseContent :=
    if negb hasLastEventId then responseContent +:+ connected_frame clientId
    else responseContent in
  responseContent ←
    for_of_acc pendingMessages
      (fun msg responseContent =>
         t ← Date_now;
         let message := message_object (eventType msg) (data msg) t in
         let responseContent := responseContent +:+ event_line (eventType msg) in
         let responseContent := responseContent +:+ data_line message in
         mret responseContent)
      responseContent;
  let responseContent :=
    if bool_decide (length pendingMessages = 0%nat) && negb hasLastEventId
    then responseContent +:+ connected_frame clientId
    else responseContent in
  mret responseContent.

(** [handleSSEConnection(req, res)]. The optional [res.flush()] and the
    [console.log] lines leave no mark on the world and are left out, and so
    are the listeners the push branch registers on [req] and [res]: they
    run [removeClient] when the peer closes. *)
Definition handleSSEConnection (req : Request) (res : ref) : M unit :=
  if falsy (query_client_id req) then
    modify (emit (EvStatusJson res 400
                    (JSON_stringify (JObj [("success", JBool false);
                                           ("error", JStr "Client ID is required")]))))
  else
    let clientId := default EmptyString (query_client_id req) in
    if isShortPolling req then
      sse_headers res "close";;
      responseContent ← poll_response clientId (negb (falsy (query_last_event_id req)));
      Response_write res responseContent;;
      Response_end res
    else
      sse_headers res "keep-alive";;
      modify (emit (EvFlushHeaders res));;
      addClient clientId (Some res);;
      Response_write res (connected_frame clientId).

(** ** Vocabulary of the statements *)

(** How a call completes, given what its response was scripted to do. *)
Definition completion_of (outcome : option ErrnoException) : completion unit :=
  match outcome with
  | None => Normal tt
  | Some e => Throw e
  end.

(** What [removeClient] may leave in the trace: the end of a response and
    the report of an error in closing it. *)
Definition closing_event (ev : Event) : bool :=
  match ev with
  | EvEnd _ _ | EvError _ _ => true
  | _ => false
  end.

(** The frame a push write of [(eventType, data)] at time [t] consists of. *)
Definition frame_events (r : ref) (eventType : string) (data : json) (t : Z) : list Event :=
  [EvWrite r (event_line eventType) None;
   EvWrite r (data_line (message_object eventType data t)) None].

(** What the [catch] block of the loop of [broadcast] reports. *)
Definition broadcast_log (clientId : string) (err : ErrnoException) : list Event :=
  if negb (code_is err "ECONNRESET") && negb (code_is err "EPIPE")
     && negb (message_is err "aborted")
  then [EvError ("Error broadcasting to " +:+ clientId +:+ ":") err]
  else [].

(** [attempts e message cs evs dead]: one pass of the loop of [broadcast]
    over the entries [cs] leaves [evs] in the trace and pushes [dead] on
    [deadClients]. Every entry is written to, whether or not an earlier one
    threw; an entry is dead when one of its two writes threw. *)
Inductive attempts (e : string) (message : json) :
  list (string * ref) → list Event → list string → Prop :=
| attempts_nil : attempts e message [] [] []
| attempts_delivered id r cs evs dead :
    attempts e message cs evs dead →
    attempts e message ((id, r) :: cs)
      (EvWrite r (event_line e) None :: EvWrite r (data_line message) None :: evs) dead
| attempts_event_line_threw id r err cs evs dead :
    attempts e message cs evs dead →
    attempts e message ((id, r) :: cs)
      (EvWrite r (event_line e) (Some err) :: broadcast_log id err ++ evs) (id :: dead)
| attempts_data_line_threw id r err cs evs dead :
    attempts e message cs evs dead →
    attempts e message ((id, r) :: cs)
      (EvWrite r (event_line e) None :: EvWrite r (data_line message) (Some err)
         :: broadcast_log id err ++ evs) (id :: dead).

Definition is_end (ev : Event) : bool :=
  match ev with
  | EvEnd _ _ => true
  | _ => false
  end.

Definition is_write (ev : Event) : bool :=
  match ev with
  | EvWrite _ _ _ => true
  | _ => false
  end.

(** The frame of one drained message when the clock reads [t], and the
    frames of a batch. *)
Definition frame_text (t : Z) (msg : QueuedMessage) : string :=
  event_line (eventType msg) +:+ data_line (message_object (eventType msg) (data msg) t).

Fixpoint frames_text (t : Z) (msgs : list QueuedMessage) : string :=
  match msgs with
  | [] => EmptyString
  | msg :: rest => frame_text t msg +:+ frames_text t rest
  end.

(** The registry is a map: no key twice. [boot] has it and every step
    keeps it. *)
Definition registry_ok (w : World) : Prop := NoDup (clients w).*1.

(** Numbered progress messages, for runs of sends. *)
Definition numbered (i : Z) : QueuedMessage := mkQueued "analysis_progress" (JNum i).

(** [n] targeted sends in a row, payloads numbered from [first]. *)
Fixpoint send_numbered (clientId : string) (first : Z) (n : nat) : M unit :=
  match n with
  | O => mret tt
  | S k =>
      sendToClient clientId "analysis_progress" (JNum first);;
      send_numbered clientId (first + 1) k
  end.

Fixpoint numbered_from (first : Z) (n : nat) : list QueuedMessage :=
  match n with
  | O => []
  | S k => numbered first :: numbered_from (first + 1) k
  end.

(** The six [setHeader] calls both branches of the handler start with. *)
Definition sse_header_events (res : ref) (connection : string) : list Event :=
  [EvSetHeader res "Content-Type" "text/event-stream";
   EvSetHeader res "Cache-Control" "no-cache, no-transform";
   EvSetHeader res "Connection" connection;
   EvSetHeader res "X-Accel-Buffering" "no";
   EvSetHeader res "Access-Control-Allow-Origin" "*";
   EvSetHeader res "Access-Control-Allow-Credentials" "true"].

(** ** Scenarios *)

(** A client connects, its connection closes, it connects again at once,
    and a minute passes. *)
Definition reconnected_world : World :=
  let w := exec (addClient "c1" (Some 1%nat)) (boot 0) in
  let w := exec (removeClient "c1") w in
  let w := exec (addClient "c1" (Some 2%nat)) w in
  elapse 60000 w.

(** A client connects and its connection closes; a second later it is back,
    and a message is pushed to it and queued; 57 seconds after that its
    second connection is about to close. *)
Definition flapping_world : World :=
  let w := exec (addClient "c1" (Some 1%nat)) (boot 0) in
  let w := exec (removeClient "c1") w in
  let w := elapse 1000 w in
  let w := exec (addClient "c1" (Some 2%nat)) w in
  let w := exec (sendToClient "c1" "analysis_progress" (JStr "go")) w in
  elapse 57000 w.

(** A client connects and its connection closes; 30 seconds later it is
    back with a new connection and a message is pushed to it and queued;
    30 more seconds pass. *)
Definition returning_world : World :=
  let w := exec (addClient "c1" (Some 1%nat)) (boot 0) in
  let w := exec (removeClient "c1") w in
  let w := elapse 30000 w in
  let w := exec (addClient "c1" (Some 2%nat)) w in
  let w := exec (sendToClient "c1" "analysis_progress" (JStr "go")) w in
  elapse 30000 w.

(** Three push clients; the response of the second throws [EPIPE] at its
    next call. *)
Definition three_clients : World :=
  let w := exec (addClient "a" (Some 1%nat)) (boot 0) in
  let w := exec (addClient "b" (Some 2%nat)) w in
  let w := exec (addClient "c" (Some 3%nat)) w in
  set_heap <[2%nat := mkResponse true false [Some (mkErrno (Some "EPIPE") "write EPIPE")]]> w.

(** A poll-mode client with one message waiting. *)
Definition waiting_world : World :=
  exec (sendToClient "c2" "analysis_progress" (JStr "go"))
    (exec (addClient "c2" None) (boot 0)).

(** A message is sent to poll-mode client c2 at time 0 and the client
    polls five seconds later. *)
Definition polled_later : completion string :=
  let w := exec (addClient "c2" None) (boot 0) in
  let w := exec (sendToClient "c2" "analysis_progress" (JStr "go")) w in
  eval (poll_response "c2" true) (elapse 5000 w).

(** ** Vocabulary for runs of sends *)

(** Whether the next two calls on a response return: what the two writes
    of a pushed frame need. *)
Definition accepts_frame (o : Response) : bool :=
  match script o with
  | Some _ :: _ => false
  | None :: Some _ :: _ => false
  | _ => true
  end.

(** What the [catch] block of [sendToClient] reports. *)
Definition sendToClient_log (clientId : string) (err : ErrnoException) : list Event :=
  if normal_disconnect err then []
  else [EvError ("Error sending SSE message to " +:+ clientId +:+ ":") err].

(** The writes of a push that failed with [err]: the event line threw, or
    the event line went out and the data line threw. *)
Definition failed_writes (r : ref) (eventType : string) (message : json)
    (err : ErrnoException) (writes : list Event) : Prop :=
  writes = [EvWrite r (event_line eventType) (Some err)]
  ∨ writes = [EvWrite r (event_line eventType) None;
              EvWrite r (data_line message) (Some err)].

(** The two writes of a frame to the response [r], read off the response
    objects [h]: the writes made with what each of them did, the error if
    one threw (once the event line has thrown the data line is not
    written), and the objects with the calls used up. *)
Definition frame_attempt (r : ref) (eventType : string) (message : json)
    (h : gmap ref Response) : list Event * option ErrnoException * gmap ref Response :=
  let '(outcome1, o1) := next_call (default open_Response (h !! r)) in
  match outcome1 with
  | Some err => ([EvWrite r (event_line eventType) (Some err)], Some err, <[r := o1]> h)
  | None =>
      let '(outcome2, o2) := next_call o1 in
      ([EvWrite r (event_line eventType) None; EvWrite r (data_line message) outcome2],
       outcome2, <[r := o2]> (<[r := o1]> h))
  end.

(** One pass of the loop of [broadcast] over the entries [cs], read off the
    response objects [h]: what it leaves in the trace, the ids it pushes on
    [deadClients], and the objects afterwards. A write throws exactly when
    the next call of its response is scripted to throw. *)
Fixpoint broadcast_pass (eventType : string) (message : json) (cs : list (string * ref))
    (h : gmap ref Response) : list Event * list string * gmap ref Response :=
  match cs with
  | [] => ([], [], h)
  | (clientId, r) :: rest =>
      let '(writes, thrown, h1) := frame_attempt r eventType message h in
      let '(evs, dead, h') := broadcast_pass eventType message rest h1 in
      match thrown with
      | Some err => (writes ++ broadcast_log clientId err ++ evs, clientId :: dead, h')
      | None => (writes ++ evs, dead, h')
      end
  end.

(** Targeted sends of [msgs] in a row, their results dropped as the
    controllers drop them. *)
Definition send_all (clientId : string) (msgs : list QueuedMessage) : M unit :=
  for_of msgs (fun msg => sendToClient clientId (eventType msg) (data msg);; mret tt).

(** A push client whose connection broke: the next write on its response
    throws [EPIPE]. *)
Definition broken_pipe_world : World :=
  set_heap <[1%nat := mkResponse true false [Some (mkErrno (Some "EPIPE") "write EPIPE")]]>
    (exec (addClient "c1" (Some 1%nat)) (boot 0)).

(** ** Stock codes

    The functions of [utils/stockUtils.ts]. A code is a string of ASCII
    characters, one byte for each UTF-16 code unit ([ascii_only]); on such a
    string [trim] and [toUpperCase] are what is written here. *)

Inductive Market : Type := A_STOCK | HK_STOCK | US_STOCK.

Definition ascii_range (lo hi : N) (c : ascii) : bool :=
  ((lo <=? N_of_ascii c) && (N_of_ascii c <=? hi))%N.

(** White space and line terminators of ECMAScript below 128. *)
Definition is_whitespace (c : ascii) : bool :=
  ascii_range 9 13 c || ascii_range 32 32 c.
(** [\d] *)
Definition is_digit (c : ascii) : bool := ascii_range 48 57 c.
(** [[A-Z]] *)
Definition is_upper (c : ascii) : bool := ascii_range 65 90 c.
Definition is_lower (c : ascii) : bool := ascii_range 97 122 c.

Fixpoint all_chars (p : ascii -> bool) (s : string) : bool :=
  match s with
  | EmptyString => true
  | String c rest => p c && all_chars p rest
  end.

Definition ascii_only (s : string) : bool := all_chars (ascii_range 0 127) s.

Fixpoint trimStart (s : string) : string :=
  match s with
  | EmptyString => EmptyString
  | String c rest => if is_whitespace c then trimStart rest else s
  end.

Fixpoint trimEnd (s : string) : string :=
  match s with
  | EmptyString => EmptyString
  | String c rest =>
      match trimEnd rest with
      | EmptyString => if is_whitespace c then EmptyString else String c EmptyString
      | kept => String c kept
      end
  end.

(** [s.trim()] *)
Definition trim (s : string) : string := trimEnd (trimStart s).

Definition upper_char (c : ascii) : ascii :=
  if is_lower c then ascii_of_N (N_of_ascii c - 32) else c.

(** [s.toUpperCase()] *)
Fixpoint toUpperCase (s : string) : string :=
  match s with
  | EmptyString => EmptyString
  | String c rest => String (upper_char c) (toUpperCase rest)
  end.

(** [/^\d{n}$/.test(code)] *)
Definition digits_exactly (n : nat) (code : string) : bool :=
  (String.length code =? n)%nat && all_chars is_digit code.

(** [/^HK\d{5}$/.test(code)] *)
Definition hk_digits (code : string) : bool :=
  match code with
  | String "H" (String "K" rest) => digits_exactly 5 rest
  | _ => false
  end.

(** [/^[A-Z]{1,5}$/.test(code)] *)
Definition letters_1_5 (code : string) : bool :=
  (1 <=? String.length code)%nat && (String.length code <=? 5)%nat
  && all_chars is_upper code.

(** [detectMarket(stockCode)] *)
Definition detectMarket (stockCode : string) : Market :=
  let code := toUpperCase (trim stockCode) in
  if digits_exactly 6 code then A_STOCK
  else if digits_exactly 5 code || hk_digits code then HK_STOCK
  else if letters_1_5 code then US_STOCK
  else A_STOCK.

(** [code.padStart(width, fill)] for a one-character [fill]. *)
Definition padStart (width : nat) (fill : ascii) (code : string) : string :=
  String.string_of_list_ascii (replicate (width - String.length code) fill) +:+ code.

(** [normalizeStockCode(stockCode, market = null)] *)
Definition normalizeStockCode (stockCode : string) (market : option Market) : string :=
  let code := toUpperCase (trim stockCode) in
  let market :=
    match market with
    | Some m => m
    | None => detectMarket code
    end in
  match market with
  | HK_STOCK =>
      let code :=
        if String.prefix "HK" code
        then String.substring 2 (String.length code - 2) code
        else code in
      if (String.length code <? 5)%nat then padStart 5 "0" code else code
  | _ => code
  end.

(** [validateStockCode(stockCode)]; the argument is a string, so of the
    first test only [!stockCode] is left. *)
Definition validateStockCode (stockCode : string) : bool :=
  if bool_decide (stockCode = EmptyString) then false
  else
    let code := toUpperCase (trim stockCode) in
    match detectMarket code with
    | A_STOCK => digits_exactly 6 code
    | HK_STOCK => digits_exactly 5 code || hk_digits code
    | US_STOCK => letters_1_5 code
    end.

(** *** The price and score hashes

    [charCodeAt] reads UTF-16 code units, so here a string is the list of
    its code units. The arithmetic is on integers small enough to be exact
    as doubles; [<<] and [&] work on 32-bit two's-complement integers. *)

(** [ToInt32] *)
Definition to_int32 (z : Z) : Z := (z + 2147483648) mod 4294967296 - 2147483648.

(** The body of the loop:
    [hash = ((hash << 5) - hash) + char; hash = hash & hash;] *)
Definition hash_step (hash char : Z) : Z :=
  let hash := to_int32 (Z.shiftl (to_int32 hash) 5) - hash + char in
  Z.land (to_int32 hash) (to_int32 hash).

(** [let hash = 0; for (let i = 0; i < stockCode.length; i++) { ... }] *)
Definition hash_of (stockCode : list Z) : Z := foldl hash_step 0 stockCode.

(** [generateFixedPrice(stockCode)]; [price] is a whole number, which
    [parseFloat(price.toFixed(2))] gives back as it is. *)
Definition generateFixedPrice (stockCode : list Z) : Z :=
  10 + Z.rem (Z.abs (hash_of stockCode)) 100.

(** [generateFixedScore(stockCode)] *)
Definition generateFixedScore (stockCode : list Z) : Z :=
  60 + Z.rem (Z.abs (hash_of stockCode)) 40.

(** The code units of a string of ASCII characters. *)
Fixpoint charCodes (s : string) : list Z :=
  match s with
  | EmptyString => []
  | String c rest => Z.of_N (N_of_ascii c) :: charCodes rest
  end.

(** [comprehensive_score > 70 ? '买入' : comprehensive_score > 50 ? '持有' : '卖出'],
    the recommendation the controllers attach to a score. *)
Definition recommendation (comprehensive_score : Z) : string :=
  if 70 <? comprehensive_score then "买入"
  else if 50 <? comprehensive_score then "持有"
  else "卖出".

(** ** Facts about the insertion-ordered map *)

Section MapFacts.
Context {V : Type}.
Implicit Types (m : list (string * V)) (k : string) (v : V).

Lemma Map_get_set_eq k v m : Map_get k (Map_set k v m) = Some v.
Proof.
  induction m as [|[k' v'] m IH]; simpl.
  - by rewrite decide_True.
  - destruct (decide (k' = k)) as [->|Hne]; simpl.
    + by rewrite decide_True.
    + by rewrite decide_False.
Qed.

Lemma Map_get_set_ne k k' v m : k ≠ k' → Map_get k' (Map_set k v m) = Map_get k' m.
Proof.
  intros Hne. induction m as [|[k0 v0] m IH]; simpl.
  - by rewrite decide_False.
  - destruct (decide (k0 = k)) as [->|Hk]; simpl.
    + by rewrite !decide_False.
    + destruct (decide (k0 = k')); [done|apply IH].
Qed.

Lemma Map_get_delete_eq k m : Map_get k (Map_delete k m) = None.
Proof.
  induction m as [|[k' v'] m IH]; simpl; [done|].
  destruct (decide (k' = k)); simpl; [done|]. by rewrite decide_False.
Qed.

Lemma Map_get_delete_ne k k' m : k ≠ k' → Map_get k' (Map_delete k m) = Map_get k' m.
Proof.
  intros Hne. induction m as [|[k0 v0] m IH]; simpl; [done|].
  destruct (decide (k0 = k)) as [->|Hk]; simpl.
  - by rewrite decide_False.
  - destruct (decide (k0 = k')); [done|apply IH].
Qed.

Lemma Map_get_None k m : Map_get k m = None ↔ k ∉ m.*1.
Proof.
  induction m as [|[k' v'] m IH]; simpl.
  - split; [intros _; apply not_elem_of_nil|done].
  - rewrite not_elem_of_cons. destruct (decide (k' = k)) as [->|Hk].
    + split; [done|]. intros [? _]; done.
    + rewrite IH. split; [intros ?; split; [congruence|done]|intros [_ ?]; done].
Qed.

Lemma Map_get_Some_elem k v m : Map_get k m = Some v → (k, v) ∈ m.
Proof.
  induction m as [|[k' v'] m IH]; simpl; [done|].
  destruct (decide (k' = k)) as [->|Hk].
  - intros [= ->]. apply list_elem_of_here.
  - intros H. apply list_elem_of_further, IH, H.
Qed.

Lemma Map_delete_absent k m : Map_get k m = None → Map_delete k m = m.
Proof.
  induction m as [|[k' v'] m IH]; simpl; [done|].
  destruct (decide (k' = k)); [done|]. intros H. by rewrite IH.
Qed.

Lemma Map_delete_keys k m : (Map_delete k m).*1 = filter (λ k', k' ≠ k) m.*1.
Proof.
  induction m as [|[k' v'] m IH]; csimpl; [done|].
  destruct (decide (k' = k)) as [->|Hk].
  - rewrite filter_cons_False; [done|]. intros H; by apply H.
  - rewrite filter_cons_True; [|done]. csimpl. by rewrite IH.
Qed.

Lemma Map_delete_NoDup k m : NoDup m.*1 → NoDup (Map_delete k m).*1.
Proof. intros H. rewrite Map_delete_keys. by apply NoDup_filter. Qed.

Lemma Map_set_keys k v m :
  (Map_set k v m).*1 = if Map_has k m then m.*1 else m.*1 ++ [k].
Proof.
  unfold Map_has. induction m as [|[k' v'] m IH]; csimpl; [done|].
  destruct (decide (k' = k)) as [->|Hk]; csimpl; [done|].
  rewrite IH. by destruct (Map_get k m).
Qed.

Lemma Map_set_NoDup k v m : NoDup m.*1 → NoDup (Map_set k v m).*1.
Proof.
  intros H. rewrite Map_set_keys. unfold Map_has.
  destruct (Map_get k m) eqn:E; [done|].
  apply NoDup_app. split; [done|]. split; [|apply NoDup_singleton].
  intros x Hx ->%list_elem_of_singleton. by apply Map_get_None in E.
Qed.

Lemma Map_delete_size k v m :
  NoDup m.*1 → Map_get k m = Some v → Map_size (Map_delete k m) = Map_size m - 1.
Proof.
  unfold Map_size. induction m as [|[k' v'] m IH]; simpl; [done|].
  intros Hnd. apply NoDup_cons in Hnd as [Hk' Hnd].
  destruct (decide (k' = k)) as [->|Hk].
  - intros _. rewrite Map_delete_absent; [lia|]. by apply Map_get_None.
  - intros H. simpl. specialize (IH Hnd H). lia.
Qed.

End MapFacts.

(** ** Running the methods *)

(** Unfolds the monad and the field updates of a statement applied to a
    world. *)
Ltac run_M :=
  unfold mbind, M_bind, bind, mret, M_ret, ret, gets, modify, try_catch,
    console_warn, console_error, Date_now, setTimeout_delete_queue,
    emit, set_clients, set_messageQueues, set_heap, set_timers;
  cbn.

Lemma addClient_run (clientId : string) (response : option ref) (w : World) :
  addClient clientId response w =
    (Normal tt,
     mkWorld (match response with
              | Some r => Map_set clientId r (clients w)
              | None => clients w
              end)
             (match messageQueues w !! clientId with
              | Some _ => messageQueues w
              | None => <[clientId := []]> (messageQueues w)
              end)
             (heap w) (now w) (timers w) (trace w)).
Proof.
  destruct w as [cs qs h t ts tr]. unfold addClient.
  destruct response; run_M; destruct (qs !! clientId); reflexivity.
Qed.

Lemma getPendingMessages_run (clientId : string) (w : World) :
  getPendingMessages clientId w =
    (Normal (default [] (messageQueues w !! clientId)),
     match messageQueues w !! clientId with
     | Some (_ :: _) => set_messageQueues <[clientId := []]> w
     | _ => w
     end).
Proof.
  unfold getPendingMessages. run_M.
  destruct (messageQueues w !! clientId) as [[|m q]|]; reflexivity.
Qed.

Lemma sendToClient_unknown_run (clientId e : string) (d : json) (w : World) :
  Map_get clientId (clients w) = None →
  messageQueues w !! clientId = None →
  sendToClient clientId e d w =
    (Normal false,
     emit (EvWarn ("Client " +:+ clientId +:+ " not found and no message queue")) w).
Proof.
  intros Hc Hq. unfold sendToClient. run_M. rewrite Hc, Hq. reflexivity.
Qed.

Lemma sendToClient_queue_only_run (clientId e : string) (d : json) (w : World) queue :
  Map_get clientId (clients w) = None →
  messageQueues w !! clientId = Some queue →
  sendToClient clientId e d w =
    (Normal true, set_messageQueues <[clientId := queue ++ [mkQueued e d]]> w).
Proof.
  intros Hc Hq. unfold sendToClient. run_M. rewrite Hc, Hq. reflexivity.
Qed.

Lemma Response_write_run r chunk w :
  ∃ outcome h',
    Response_write r chunk w =
      (completion_of outcome,
       mkWorld (clients w) (messageQueues w) h' (now w) (timers w)
               (trace w ++ [EvWrite r chunk outcome])).
Proof.
  unfold Response_write. destruct (next_call (deref w r)) as [[e|] o]; eauto.
  - by exists (Some e), (<[r := o]> (heap w)).
  - by exists None, (<[r := o]> (heap w)).
Qed.

Lemma removeClient_absent_run clientId w :
  Map_get clientId (clients w) = None → removeClient clientId w = (Normal tt, w).
Proof. intros H. unfold removeClient. run_M. by rewrite H. Qed.

Lemma removeClient_present_run clientId r w :
  Map_get clientId (clients w) = Some r →
  ∃ h' evs,
    removeClient clientId w =
      (Normal tt,
       mkWorld (Map_delete clientId (clients w)) (messageQueues w) h' (now w)
               (timers w ++ [(now w + 60000, clientId)]) (trace w ++ evs))
    ∧ forallb closing_event evs = true.
Proof.
  intros H. unfold removeClient. run_M. rewrite H.
  destruct (writable (deref w r) && negb (destroyed (deref w r))).
  - unfold Response_end. destruct (next_call (deref w r)) as [[e|] o]; run_M.
    + destruct (negb (code_is e "ECONNRESET") && negb (code_is e "EPIPE")
                && negb (message_is e "aborted")); run_M.
      * eexists _, [_; _]. rewrite <- app_assoc. split; reflexivity.
      * eexists _, [_]. split; reflexivity.
    + eexists _, [_]. split; reflexivity.
  - cbn. eexists _, []. rewrite app_nil_r. split; reflexivity.
Qed.

Lemma removeClient_run clientId w :
  ∃ h' evs,
    removeClient clientId w =
      (Normal tt,
       mkWorld (Map_delete clientId (clients w)) (messageQueues w) h' (now w)
               (timers w ++ match Map_get clientId (clients w) with
                            | Some _ => [(now w + 60000, clientId)]
                            | None => []
                            end) (trace w ++ evs))
    ∧ forallb closing_event evs = true.
Proof.
  destruct (Map_get clientId (clients w)) as [r|] eqn:E.
  - apply (removeClient_present_run _ r _ E).
  - rewrite removeClient_absent_run by done.
    exists (heap w), []. rewrite !app_nil_r, Map_delete_absent by done.
    by destruct w.
Qed.

Lemma removeClient_normal clientId w : eval (removeClient clientId) w = Normal tt.
Proof.
  destruct (removeClient_run clientId w) as (h' & evs & E & _).
  unfold eval. by rewrite E.
Qed.

Lemma sendToClient_catch_run clientId err w :
  ∃ w' ts,
    sendToClient_catch clientId err w = (Normal false, w')
    ∧ clients w' = Map_delete clientId (clients w)
    ∧ messageQueues w' = messageQueues w
    ∧ now w' = now w
    ∧ timers w' = timers w ++ ts.
Proof.
  unfold sendToClient_catch. run_M. destruct (normal_disconnect err).
  - destruct (removeClient_run clientId w) as (h' & evs & -> & _).
    by eexists _, _.
  - match goal with |- context [removeClient clientId ?w2] =>
      destruct (removeClient_run clientId w2) as (h' & evs & -> & _) end.
    by eexists _, _.
Qed.

Lemma sendToClient_push_run clientId e d r w :
  Map_get clientId (clients w) = Some r →
  (∃ h',
     sendToClient clientId e d w =
       (Normal true,
        mkWorld (clients w)
                (match messageQueues w !! clientId with
                 | Some queue =>
                     <[clientId := shift_over_1000 (queue ++ [mkQueued e d])]> (messageQueues w)
                 | None => messageQueues w
                 end)
                h' (now w) (timers w) (trace w ++ frame_events r e d (now w))))
  ∨ (∃ w' ts,
       sendToClient clientId e d w = (Normal false, w')
       ∧ clients w' = Map_delete clientId (clients w)
       ∧ messageQueues w' = messageQueues w
       ∧ now w' = now w
       ∧ timers w' = timers w ++ ts).
Proof.
  intros H. unfold sendToClient. run_M. rewrite H. run_M.
  destruct (Response_write_run r (event_line e) w) as ([e1|] & h1 & ->); cbn.
  - right. match goal with |- context [sendToClient_catch clientId ?err ?w1] =>
      destruct (sendToClient_catch_run clientId err w1) as (w' & ts & -> & ? & ? & ? & ?) end.
    by exists w', ts.
  - match goal with |- context [Response_write r ?c ?w1] =>
      destruct (Response_write_run r c w1) as ([e2|] & h2 & ->) end; cbn.
    + right. match goal with |- context [sendToClient_catch clientId ?err ?w1] =>
        destruct (sendToClient_catch_run clientId err w1) as (w' & ts & -> & ? & ? & ? & ?) end.
      by exists w', ts.
    + left. destruct (messageQueues w !! clientId) as [queue|]; cbn;
        rewrite <- app_assoc; eexists; reflexivity.
Qed.

(** Whatever it returns, [sendToClient] completes normally, leaves the
    clock alone and cancels no timer. *)
Lemma sendToClient_timers clientId e d w :
  ∃ sent ts,
    sendToClient clientId e d w = (Normal sent, exec (sendToClient clientId e d) w)
    ∧ now (exec (sendToClient clientId e d) w) = now w
    ∧ timers (exec (sendToClient clientId e d) w) = timers w ++ ts.
Proof.
  unfold exec. destruct (Map_get clientId (clients w)) as [r|] eqn:Hc.
  - destruct (sendToClient_push_run clientId e d r w Hc)
      as [(h' & ->)|(w' & ts & -> & _ & _ & Hnow & Hts)].
    + exists true, []. by rewrite app_nil_r.
    + by exists false, ts.
  - destruct (messageQueues w !! clientId) as [queue|] eqn:Hq.
    + rewrite (sendToClient_queue_only_run _ _ _ _ queue) by done.
      exists true, []. by rewrite app_nil_r.
    + rewrite sendToClient_unknown_run by done. exists false, []. by rewrite app_nil_r.
Qed.

(** *** Timers *)

Lemma foldl_delete_lookup (due : list (Z * string)) (qs : gmap string (list QueuedMessage))
    (id : string) :
  foldl (λ qs x, delete x.2 qs) qs due !! id
  = if decide (id ∈ due.*2) then None else qs !! id.
Proof.
  revert qs. induction due as [|[t k] due IH]; intros qs.
  - cbn. case_decide as Hin; [by apply elem_of_nil in Hin|done].
  - cbn [foldl]. rewrite IH, fmap_cons. cbn [snd].
    destruct (decide (id ∈ due.*2)) as [Hin|Hin].
    + rewrite decide_True; [done|by apply list_elem_of_further].
    + destruct (decide (k = id)) as [->|Hne].
      * rewrite decide_True; [|apply list_elem_of_here]. apply lookup_delete_eq.
      * rewrite decide_False; [by apply lookup_delete_ne|].
        rewrite not_elem_of_cons. split; [congruence|done].
Qed.

Lemma elapse_queue_lookup d w id :
  messageQueues (elapse d w) !! id
  = if decide (id ∈ (filter (λ x, x.1 ≤ now w + d) (timers w)).*2)
    then None else messageQueues w !! id.
Proof. unfold elapse. cbn. apply foldl_delete_lookup. Qed.

(** A deletion that has come due is carried out, whoever is registered. *)
Lemma elapse_fires d w t id :
  (t, id) ∈ timers w → t ≤ now w + d → messageQueues (elapse d w) !! id = None.
Proof.
  intros Hin Hdue. rewrite elapse_queue_lookup. rewrite decide_True; [done|].
  apply list_elem_of_fmap. exists (t, id). split; [done|].
  apply list_elem_of_filter. by split.
Qed.

(** A queue with no deletion due stays. *)
Lemma elapse_keeps d w id :
  (∀ t, (t, id) ∈ timers w → now w + d < t) →
  messageQueues (elapse d w) !! id = messageQueues w !! id.
Proof.
  intros H. rewrite elapse_queue_lookup. rewrite decide_False; [done|].
  intros ([t k] & -> & [Hdue Hin]%list_elem_of_filter)%list_elem_of_fmap.
  cbn in *. specialize (H _ Hin). lia.
Qed.

(** *** broadcast *)

Lemma broadcast_one_run e message id r deadClients w :
  ∃ h' evs dead,
    broadcast_one e message (id, r) deadClients w =
      (Normal (deadClients ++ dead),
       mkWorld (clients w) (messageQueues w) h' (now w) (timers w) (trace w ++ evs))
    ∧ ∀ cs evs' dead',
        attempts e message cs evs' dead' →
        attempts e message ((id, r) :: cs) (evs ++ evs') (dead ++ dead').
Proof.
  unfold broadcast_one. run_M.
  destruct (Response_write_run r (event_line e) w) as ([e1|] & h1 & ->); cbn.
  - exists h1, (EvWrite r (event_line e) (Some e1) :: broadcast_log id e1), [id].
    split; [|intros; by constructor].
    unfold broadcast_log.
    destruct (negb (code_is e1 "ECONNRESET") && negb (code_is e1 "EPIPE")
              && negb (message_is e1 "aborted")); cbn; [|done].
    by rewrite <- app_assoc.
  - match goal with |- context [Response_write r ?c ?w1] =>
      destruct (Response_write_run r c w1) as ([e2|] & h2 & ->) end; cbn.
    + exists h2, (EvWrite r (event_line e) None :: EvWrite r (data_line message) (Some e2)
                    :: broadcast_log id e2), [id].
      split; [|intros; by constructor].
      unfold broadcast_log.
      destruct (negb (code_is e2 "ECONNRESET") && negb (code_is e2 "EPIPE")
                && negb (message_is e2 "aborted")); cbn; by rewrite <- !app_assoc.
    + exists h2, [EvWrite r (event_line e) None; EvWrite r (data_line message) None], [].
      rewrite app_nil_r, <- app_assoc. split; [done|intros; by constructor].
Qed.

Lemma broadcast_loop_run e message cs :
  ∀ deadClients w,
  ∃ h' evs dead,
    for_of_acc cs (broadcast_one e message) deadClients w =
      (Normal (deadClients ++ dead),
       mkWorld (clients w) (messageQueues w) h' (now w) (timers w) (trace w ++ evs))
    ∧ attempts e message cs evs dead.
Proof.
  induction cs as [|[id r] cs IH]; intros deadClients w.
  - exists (heap w), [], []. rewrite !app_nil_r. split; [by destruct w|constructor].
  - cbn [for_of_acc]. unfold mbind, M_bind, bind.
    destruct (broadcast_one_run e message id r deadClients w) as (h1 & evs1 & dead1 & -> & Hext).
    match goal with |- context [for_of_acc cs _ ?dd ?w1] =>
      destruct (IH dd w1) as (h2 & evs2 & dead2 & -> & Hatt) end.
    cbn. exists h2, (evs1 ++ evs2), (dead1 ++ dead2).
    rewrite <- !app_assoc. split; [done|by apply Hext].
Qed.

Lemma Map_delete_filter {V} (k : string) (m : list (string * V)) :
  Map_delete k m = filter (λ kv, kv.1 ≠ k) m.
Proof.
  induction m as [|[k' v'] m IH]; [done|]. cbn [Map_delete].
  destruct (decide (k' = k)) as [->|Hk].
  - rewrite filter_cons_False; [done|]. cbn. intros H; by apply H.
  - rewrite filter_cons_True; [|done]. by rewrite IH.
Qed.

Lemma remove_all_run dead :
  ∀ w,
  ∃ h' evs ts,
    for_of dead removeClient w =
      (Normal tt,
       mkWorld (filter (λ kv, kv.1 ∉ dead) (clients w)) (messageQueues w) h' (now w)
               (timers w ++ ts) (trace w ++ evs))
    ∧ forallb closing_event evs = true.
Proof.
  induction dead as [|id dead IH]; intros w.
  - exists (heap w), [], []. rewrite !app_nil_r. split; [|done].
    cbn. unfold mret, M_ret, ret. destruct w as [cs ? ? ? ? ?]; cbn. f_equal. f_equal.
    symmetry. induction cs as [|kv cs IHc]; [done|].
    rewrite filter_cons_True; [by rewrite IHc|apply not_elem_of_nil].
  - cbn [for_of]. unfold mbind, M_bind, bind.
    destruct (removeClient_run id w) as (h1 & evs1 & -> & Hc1).
    match goal with |- context [for_of dead _ ?w1] =>
      destruct (IH w1) as (h2 & evs2 & ts2 & -> & Hc2) end.
    cbn. eexists h2, (evs1 ++ evs2), (_ ++ ts2).
    rewrite <- (app_assoc (timers w)), <- (app_assoc (trace w)).
    split; [|by rewrite forallb_app, Hc1, Hc2].
    f_equal. f_equal. rewrite Map_delete_filter, list_filter_filter.
    apply list_filter_iff. intros [k v]; cbn. rewrite not_elem_of_cons. tauto.
Qed.

Lemma broadcast_run e d w :
  ∃ h' writes dead closes ts,
    broadcast e d w =
      (Normal tt,
       mkWorld (filter (λ kv, kv.1 ∉ dead) (clients w)) (messageQueues w) h' (now w)
               (timers w ++ ts) (trace w ++ writes ++ closes))
    ∧ attempts e (message_object e d (now w)) (clients w) writes dead
    ∧ forallb closing_event closes = true.
Proof.
  unfold broadcast. run_M.
  destruct (broadcast_loop_run e (message_object e d (now w)) (clients w) [] w)
    as (h1 & writes & dead & -> & Hatt).
  rewrite app_nil_l.
  match goal with |- context [for_of _ removeClient ?w1] =>
    destruct (remove_all_run dead w1) as (h2 & closes & ts & -> & Hcl) end.
  cbn. exists h2, writes, dead, closes, ts. by rewrite <- app_assoc.
Qed.

(** Every entry of the registry has its write in the trace of the loop. *)
Lemma attempts_cover e message cs evs dead :
  attempts e message cs evs dead →
  ∀ id r, (id, r) ∈ cs → ∃ thrown, EvWrite r (event_line e) thrown ∈ evs.
Proof.
  induction 1 as [|id0 r0 cs evs dead _ IH|id0 r0 err cs evs dead _ IH
                  |id0 r0 err cs evs dead _ IH]; intros id r Hin.
  - by apply elem_of_nil in Hin.
  - apply elem_of_cons in Hin as [[= -> ->]|Hin].
    + exists None. apply list_elem_of_here.
    + destruct (IH _ _ Hin) as [thrown Ht]. exists thrown.
      by do 2 apply list_elem_of_further.
  - apply elem_of_cons in Hin as [[= -> ->]|Hin].
    + exists (Some err). apply list_elem_of_here.
    + destruct (IH _ _ Hin) as [thrown Ht]. exists thrown.
      apply list_elem_of_further, elem_of_app. by right.
  - apply elem_of_cons in Hin as [[= -> ->]|Hin].
    + exists None. apply list_elem_of_here.
    + destruct (IH _ _ Hin) as [thrown Ht]. exists thrown.
      do 2 apply list_elem_of_further. apply elem_of_app. by right.
Qed.

Lemma attempts_no_end e message cs evs dead :
  attempts e message cs evs dead → existsb is_end evs = false.
Proof.
  assert (∀ id err, existsb is_end (broadcast_log id err) = false) as Hlog.
  { intros id err. unfold broadcast_log. by destruct (_ && _). }
  induction 1; cbn; [done|done|..]; by rewrite existsb_app, Hlog.
Qed.

Lemma closing_no_write evs :
  forallb closing_event evs = true → existsb is_write evs = false.
Proof.
  induction evs as [|ev evs IH]; [done|]. cbn.
  intros [Hev Hrest]%andb_prop. rewrite (IH Hrest). by destruct ev.
Qed.

(** *** Short polling *)

Lemma append_assoc (a b c : string) : (a +:+ b) +:+ c = a +:+ b +:+ c.
Proof.
  induction a as [|ch a IH]; [done|].
  change (String ch ((a +:+ b) +:+ c) = String ch (a +:+ b +:+ c)). by f_equal.
Qed.

Lemma append_nil_r (a : string) : a +:+ EmptyString = a.
Proof.
  induction a as [|ch a IH]; [done|].
  change (String ch (a +:+ EmptyString) = String ch a). by f_equal.
Qed.

Lemma poll_response_run clientId hasLastEventId w :
  let pendingMessages := default [] (messageQueues w !! clientId) in
  poll_response clientId hasLastEventId w =
    (Normal ((if hasLastEventId then EmptyString else connected_frame clientId)
             +:+ frames_text (now w) pendingMessages
             +:+ (if bool_decide (length pendingMessages = 0%nat) && negb hasLastEventId
                  then connected_frame clientId else EmptyString)),
     set_messageQueues <[clientId := []]> w).
Proof.
  intros pendingMessages. unfold poll_response.
  unfold mbind at 1, M_bind at 1, bind at 1. rewrite addClient_run.
  unfold mbind at 1, M_bind at 1, bind at 1. rewrite getPendingMessages_run. cbn.
  set (w1 := match _ with Some (_ :: _) => _ | _ => _ end).
  assert (default [] (match messageQueues w !! clientId with
                      | Some _ => messageQueues w
                      | None => <[clientId := []]> (messageQueues w)
                      end !! clientId) = pendingMessages) as ->.
  { subst pendingMessages. destruct (messageQueues w !! clientId) eqn:E.
    - by rewrite E. 
    - by rewrite lookup_insert_eq. }
  assert (w1 = set_messageQueues <[clientId := []]> w ∧ now w1 = now w) as [Hw1 Hnow].
  { subst w1. destruct (messageQueues w !! clientId) as [[|m q]|] eqn:E.
    - rewrite E. cbn. split; [|done]. unfold set_messageQueues.
      rewrite insert_id by done. by destruct w.
    - rewrite E. unfold set_messageQueues. cbn. by rewrite insert_insert_eq || done.
    - rewrite lookup_insert_eq. done. }
  clearbody w1.
  assert (∀ msgs rc,
            for_of_acc msgs
              (λ (msg : QueuedMessage) (responseContent : string),
                 t ← Date_now;
                 let message := message_object (eventType msg) (data msg) t in
                 let responseContent := responseContent +:+ event_line (eventType msg) in
                 let responseContent := responseContent +:+ data_line message in
                 mret responseContent) rc w1
            = (Normal (rc +:+ frames_text (now w) msgs), w1)) as Hloop.
  { induction msgs as [|m msgs IH]; intros rc.
    - cbn. by rewrite append_nil_r.
    - cbn [for_of_acc]. run_M. rewrite IH, Hnow. unfold frame_text.
      by rewrite !append_assoc. }
  unfold mbind, M_bind, bind. rewrite Hloop. cbn. rewrite Hw1.
  unfold mret, M_ret, ret. f_equal. f_equal.
  destruct hasLastEventId, (bool_decide (length pendingMessages = 0%nat)); cbn;
    by rewrite ?append_assoc, ?append_nil_r.
Qed.

(** ** The registry invariant *)

Lemma boot_registry_ok t : registry_ok (boot t).
Proof. apply NoDup_nil_2. Qed.

Lemma addClient_registry_ok clientId response w :
  registry_ok w → registry_ok (exec (addClient clientId response) w).
Proof.
  unfold registry_ok, exec. rewrite addClient_run. cbn.
  destruct response; [apply Map_set_NoDup|done].
Qed.

Lemma removeClient_registry_ok clientId w :
  registry_ok w → registry_ok (exec (removeClient clientId) w).
Proof.
  unfold registry_ok, exec.
  destruct (removeClient_run clientId w) as (h' & evs & -> & _). cbn.
  apply Map_delete_NoDup.
Qed.

Lemma elapse_registry_ok d w : registry_ok w → registry_ok (elapse d w).
Proof. done. Qed.

Lemma getPendingMessages_registry_ok clientId w :
  registry_ok w → registry_ok (exec (getPendingMessages clientId) w).
Proof.
  unfold registry_ok, exec. rewrite getPendingMessages_run. cbn.
  by destruct (messageQueues w !! clientId) as [[|m q]|].
Qed.

Lemma sendToClient_registry_ok clientId e d w :
  registry_ok w → registry_ok (exec (sendToClient clientId e d) w).
Proof.
  unfold registry_ok, exec. intros Hok.
  destruct (Map_get clientId (clients w)) as [r|] eqn:Hc.
  - destruct (sendToClient_push_run clientId e d r w Hc)
      as [(h' & ->)|(w' & ts & -> & Hcs & _)]; [done|].
    cbn. rewrite Hcs. by apply Map_delete_NoDup.
  - destruct (messageQueues w !! clientId) as [queue|] eqn:Hq.
    + by rewrite (sendToClient_queue_only_run _ _ _ _ queue).
    + by rewrite sendToClient_unknown_run.
Qed.

Lemma broadcast_registry_ok e d w :
  registry_ok w → registry_ok (exec (broadcast e d) w).
Proof.
  unfold registry_ok, exec. intros Hok.
  destruct (broadcast_run e d w) as (h' & writes & dead & closes & ts & -> & _).
  cbn. induction (clients w) as [|[k v] cs IH]; [done|].
  apply NoDup_cons in Hok as [Hk Hcs]. destruct (decide (k ∈ dead)).
  - rewrite filter_cons_False by (cbn; tauto). by apply IH.
  - rewrite filter_cons_True by done. csimpl. apply NoDup_cons. split; [|by apply IH].
    intros ([k' v'] & -> & [_ Hin]%list_elem_of_filter)%list_elem_of_fmap.
    apply Hk. apply list_elem_of_fmap. by exists (k', v').
Qed.

(** ** Queues *)

Lemma send_numbered_queue_only clientId n :
  ∀ first w queue,
    Map_get clientId (clients w) = None →
    messageQueues w !! clientId = Some queue →
    send_numbered clientId first n w =
      (Normal tt, set_messageQueues <[clientId := queue ++ numbered_from first n]> w).
Proof.
  induction n as [|n IH]; intros first w queue Hc Hq.
  - cbn. unfold mret, M_ret, ret, set_messageQueues. rewrite app_nil_r, insert_id by done.
    by destruct w.
  - cbn [send_numbered numbered_from]. unfold mbind, M_bind, bind.
    rewrite (sendToClient_queue_only_run _ _ _ _ queue) by done.
    rewrite (IH _ _ (queue ++ [numbered first])); [|done|apply lookup_insert_eq].
    unfold set_messageQueues. cbn. by rewrite insert_insert_eq, <- app_assoc.
Qed.

Lemma last_tail {A} (l : list A) (x : A) :
  (2 ≤ length (l ++ [x]))%nat → last (tail (l ++ [x])) = Some x.
Proof.
  destruct l as [|y l]; cbn; [lia|]. intros _. apply last_snoc.
Qed.

Lemma shift_over_1000_last queue m : last (shift_over_1000 (queue ++ [m])) = Some m.
Proof.
  unfold shift_over_1000. destruct (1000 <? _) eqn:E.
  - apply last_tail. apply Z.ltb_lt in E. lia.
  - apply last_snoc.
Qed.

(** A queue within the bound stays within it under [push] and the shift. *)
Lemma shift_over_1000_bound queue m :
  (length queue ≤ 1000)%nat → (length (shift_over_1000 (queue ++ [m])) ≤ 1000)%nat.
Proof.
  intros H. unfold shift_over_1000. destruct (1000 <? _) eqn:E.
  - destruct queue as [|m0 queue]; cbn in *; [lia|]. rewrite length_app. cbn. lia.
  - apply Z.ltb_ge in E. lia.
Qed.

(** A targeted send that succeeds for a client with a queue: the world
    afterwards, whichever branch was taken. *)
Lemma sendToClient_ok_run clientId eventType data queue w :
  messageQueues w !! clientId = Some queue →
  eval (sendToClient clientId eventType data) w = Normal true →
  ∃ earlier h',
    sendToClient clientId eventType data w =
      (Normal true,
       mkWorld (clients w) (<[clientId := earlier ++ [mkQueued eventType data]]> (messageQueues w))
               h' (now w) (timers w)
               (trace w ++ match Map_get clientId (clients w) with
                           | Some r => frame_events r eventType data (now w)
                           | None => []
                           end)).
Proof.
  intros Hq Hok. destruct (Map_get clientId (clients w)) as [r|] eqn:Hc.
  - unfold eval in Hok.
    destruct (sendToClient_push_run clientId eventType data r w Hc)
      as [(h' & E)|(w1 & ts & E & _)]; rewrite E in *; [|done].
    rewrite Hq. unfold shift_over_1000. destruct (1000 <? _) eqn:Hlen.
    + destruct queue as [|m0 queue]; [done|]. by exists queue, h'.
    + by exists queue, h'.
  - rewrite (sendToClient_queue_only_run _ _ _ _ queue) by done.
    exists queue, (heap w). by rewrite app_nil_r.
Qed.

Lemma elapse_pending_later d w clientId :
  0 ≤ d < 60000 →
  clientId ∉ (timers w).*2 →
  ∀ t, (t, clientId) ∈ timers w ++ [(now w + 60000, clientId)] → now w + d < t.
Proof.
  intros Hd Hfree t [Hin|Hin]%elem_of_app.
  - exfalso. apply Hfree. apply list_elem_of_fmap. by exists (t, clientId).
  - apply list_elem_of_singleton in Hin. injection Hin as ->. lia.
Qed.

Lemma frames_text_app t msgs msgs' :
  frames_text t (msgs ++ msgs') = frames_text t msgs +:+ frames_text t msgs'.
Proof.
  induction msgs as [|m msgs IH]; [done|].
  cbn [app frames_text]. by rewrite IH, append_assoc.
Qed.

(** ** The handler *)

Lemma sse_headers_run res connection w :
  sse_headers res connection w =
    (Normal tt,
     mkWorld (clients w) (messageQueues w) (heap w) (now w) (timers w)
             (trace w ++ sse_header_events res connection)).
Proof.
  unfold sse_headers, setHeader. run_M. by rewrite <- !app_assoc.
Qed.

(** The short-polling branch of the handler: the headers, then the whole
    [responseContent] in one write, then (unless that write threw) the end
    of the response. *)
Lemma handleSSEConnection_poll_run (w : World) (req : Request) (res : ref) (clientId : string) :
  query_client_id req = Some clientId →
  clientId ≠ EmptyString →
  isShortPolling req = true →
  ∃ body thrown rest c h',
    eval (poll_response clientId (negb (falsy (query_last_event_id req)))) w = Normal body
    ∧ handleSSEConnection req res w =
        (c, mkWorld (clients w) (<[clientId := []]> (messageQueues w)) h' (now w) (timers w)
              (trace w ++ sse_header_events res "close" ++ EvWrite res body thrown :: rest)).
Proof.
  intros Hid Hne Hpoll. unfold handleSSEConnection, eval.
  rewrite Hid, Hpoll. cbn [default].
  assert (falsy (Some clientId) = false) as -> by by destruct clientId.
  unfold mbind at 1, M_bind at 1, bind at 1. rewrite sse_headers_run.
  unfold mbind at 1, M_bind at 1, bind at 1. rewrite !poll_response_run. cbn zeta.
  set (body := _ +:+ _). unfold set_messageQueues.
  cbn [clients messageQueues heap now timers trace fst].
  unfold mbind, M_bind, bind.
  match goal with |- context [Response_write res body ?w1] =>
    destruct (Response_write_run res body w1) as ([e1|] & h1 & ->) end; cbn.
  - exists body, (Some e1), [], (Throw e1), h1.
    split; [reflexivity|]. rewrite <- app_assoc. reflexivity.
  - unfold Response_end.
    match goal with |- context [next_call ?o] => destruct (next_call o) as [[e2|] o2] end;
      run_M.
    + eexists body, None, [EvEnd res (Some e2)], _, _.
      split; [reflexivity|]. rewrite <- !app_assoc. reflexivity.
    + eexists body, None, [EvEnd res None], _, _.
      split; [reflexivity|]. rewrite <- !app_assoc. reflexivity.
Qed.

(** ** Writes read off the response objects *)

Lemma Response_write_script r chunk w :
  Response_write r chunk w =
    (completion_of (next_call (deref w r)).1,
     mkWorld (clients w) (messageQueues w) (<[r := (next_call (deref w r)).2]> (heap w))
             (now w) (timers w)
             (trace w ++ [EvWrite r chunk (next_call (deref w r)).1])).
Proof.
  unfold Response_write. by destruct (next_call (deref w r)) as [[e|] o].
Qed.

Lemma accepts_frame_calls o :
  accepts_frame o =
    match (next_call o).1 with
    | Some _ => false
    | None => match (next_call (next_call o).2).1 with
              | Some _ => false
              | None => true
              end
    end.
Proof.
  unfold accepts_frame, next_call. destruct o as [wr de [|[e|] [|[e'|] s]]]; reflexivity.
Qed.

(** A frame goes out whole exactly when the response accepts it. *)
Lemma frame_attempt_accepts r e message h writes thrown h1 :
  frame_attempt r e message h = (writes, thrown, h1) →
  match thrown with
  | None =>
      accepts_frame (default open_Response (h !! r)) = true
      ∧ writes = [EvWrite r (event_line e) None; EvWrite r (data_line message) None]
  | Some err =>
      accepts_frame (default open_Response (h !! r)) = false
      ∧ failed_writes r e message err writes
  end.
Proof.
  unfold frame_attempt. rewrite accepts_frame_calls.
  destruct (next_call (default open_Response (h !! r))) as [[e1|] o1]; cbn.
  - intros [= <- <- <-]. split; [done|by left].
  - destruct (next_call o1) as [[e2|] o2]; cbn; intros [= <- <- <-].
    + split; [done|by right].
    + done.
Qed.

(** The writes of a frame touch no other response. *)
Lemma frame_attempt_other r r' e message h writes thrown h1 :
  frame_attempt r e message h = (writes, thrown, h1) → r' ≠ r → h1 !! r' = h !! r'.
Proof.
  unfold frame_attempt. intros H Hne.
  destruct (next_call (default open_Response (h !! r))) as [[e1|] o1].
  - injection H as <- <- <-. by apply lookup_insert_ne.
  - destruct (next_call o1) as [out2 o2]. injection H as <- <- <-.
    by rewrite !lookup_insert_ne.
Qed.

Lemma broadcast_one_pass e message id r deadClients w writes thrown h1 :
  frame_attempt r e message (heap w) = (writes, thrown, h1) →
  broadcast_one e message (id, r) deadClients w =
    (Normal (deadClients ++ match thrown with Some _ => [id] | None => [] end),
     mkWorld (clients w) (messageQueues w) h1 (now w) (timers w)
             (trace w ++ writes ++ match thrown with
                                   | Some err => broadcast_log id err
                                   | None => []
                                   end)).
Proof.
  unfold frame_attempt, broadcast_one. run_M.
  rewrite Response_write_script. unfold deref.
  destruct (next_call (default open_Response (heap w !! r))) as [[e1|] o1]; cbn.
  - intros [= <- <- <-]. unfold broadcast_log.
    destruct (negb (code_is e1 "ECONNRESET") && negb (code_is e1 "EPIPE")
              && negb (message_is e1 "aborted")); cbn; [|done].
    by rewrite <- app_assoc.
  - rewrite Response_write_script. unfold deref. cbn [heap].
    rewrite !lookup_insert_eq. cbn.
    destruct (next_call o1) as [[e2|] o2]; cbn; intros [= <- <- <-].
    + unfold broadcast_log.
      destruct (negb (code_is e2 "ECONNRESET") && negb (code_is e2 "EPIPE")
                && negb (message_is e2 "aborted")); cbn; by rewrite <- !app_assoc.
    + by rewrite app_nil_r, <- app_assoc.
Qed.

(** The loop of [broadcast] does what [broadcast_pass] reads off the
    response objects. *)
Lemma broadcast_loop_pass e message cs :
  ∀ deadClients w evs dead h',
    broadcast_pass e message cs (heap w) = (evs, dead, h') →
    for_of_acc cs (broadcast_one e message) deadClients w =
      (Normal (deadClients ++ dead),
       mkWorld (clients w) (messageQueues w) h' (now w) (timers w) (trace w ++ evs)).
Proof.
  induction cs as [|[id r] cs IH]; intros deadClients w evs dead h'.
  - cbn. intros [= <- <- <-]. rewrite !app_nil_r. by destruct w.
  - cbn [broadcast_pass for_of_acc].
    destruct (frame_attempt r e message (heap w)) as [[writes thrown] h1] eqn:Hf.
    destruct (broadcast_pass e message cs h1) as [[evs2 dead2] h2] eqn:Hp.
    intros Hres. unfold mbind, M_bind, bind.
    rewrite (broadcast_one_pass _ _ _ _ _ _ _ _ _ Hf).
    match goal with |- context [for_of_acc cs _ ?dd ?w1] =>
      rewrite (IH dd w1 evs2 dead2 h2 Hp) end.
    cbn. destruct thrown as [err|]; injection Hres as <- <- <-;
      by rewrite <- !app_assoc.
Qed.

Lemma broadcast_pass_attempts e message cs :
  ∀ h evs dead h',
    broadcast_pass e message cs h = (evs, dead, h') → attempts e message cs evs dead.
Proof.
  induction cs as [|[id r] cs IH]; intros h evs dead h'.
  - cbn. intros [= <- <- <-]. constructor.
  - cbn [broadcast_pass].
    destruct (frame_attempt r e message h) as [[writes thrown] h1] eqn:Hf.
    destruct (broadcast_pass e message cs h1) as [[evs2 dead2] h2] eqn:Hp.
    pose proof (frame_attempt_accepts _ _ _ _ _ _ _ Hf) as Hacc.
    specialize (IH _ _ _ _ Hp).
    destruct thrown as [err|]; intros [= <- <- <-].
    + destruct Hacc as [_ [->| ->]]; cbn; by constructor.
    + destruct Hacc as [_ ->]. cbn. by constructor.
Qed.

Lemma broadcast_pass_dead e message cs :
  ∀ h evs dead h',
    broadcast_pass e message cs h = (evs, dead, h') → dead ⊆ cs.*1.
Proof.
  induction cs as [|[id r] cs IH]; intros h evs dead h'.
  - cbn. by intros [= <- <- <-].
  - cbn [broadcast_pass].
    destruct (frame_attempt r e message h) as [[writes thrown] h1] eqn:Hf.
    destruct (broadcast_pass e message cs h1) as [[evs2 dead2] h2] eqn:Hp.
    specialize (IH _ _ _ _ Hp). rewrite fmap_cons. cbn [fst].
    destruct thrown as [err|]; intros [= ? ? ?]; subst.
    + intros x [->|Hx]%elem_of_cons;
        [apply list_elem_of_here|by apply list_elem_of_further, IH].
    + intros x Hx. by apply list_elem_of_further, IH.
Qed.

(** What [broadcast_pass] does to an entry whose response is registered
    under no other id: the frame goes out whole and the id is not dead when
    the response accepts the frame, a write throws and the id is dead when
    it does not. *)
Lemma broadcast_pass_entry e message cs :
  ∀ h evs dead h' id r,
    broadcast_pass e message cs h = (evs, dead, h') →
    NoDup cs.*1 →
    (id, r) ∈ cs →
    (∀ id', (id', r) ∈ cs → id' = id) →
    if accepts_frame (default open_Response (h !! r))
    then (id ∉ dead)
         ∧ EvWrite r (event_line e) None ∈ evs
         ∧ EvWrite r (data_line message) None ∈ evs
    else id ∈ dead
         ∧ ∃ err, EvWrite r (event_line e) (Some err) ∈ evs
                  ∨ EvWrite r (data_line message) (Some err) ∈ evs.
Proof.
  induction cs as [|[id0 r0] cs IH]; intros h evs dead h' id r Hpass Hnd Hin Hown.
  - by apply elem_of_nil in Hin.
  - cbn [broadcast_pass] in Hpass.
    destruct (frame_attempt r0 e message h) as [[writes thrown] h1] eqn:Hf.
    destruct (broadcast_pass e message cs h1) as [[evs2 dead2] h2] eqn:Hp.
    rewrite fmap_cons in Hnd. cbn [fst] in Hnd. apply NoDup_cons in Hnd as [Hfresh Hnd].
    pose proof (broadcast_pass_dead _ _ _ _ _ _ _ Hp) as Hsub.
    apply elem_of_cons in Hin as [[= -> ->]|Hin].
    + pose proof (frame_attempt_accepts _ _ _ _ _ _ _ Hf) as Hacc.
      destruct thrown as [err|]; injection Hpass as <- <- <-.
      * destruct Hacc as [-> Hw]. split; [apply list_elem_of_here|].
        exists err. rewrite !elem_of_app.
        destruct Hw as [-> | ->]; [left|right]; left.
        -- apply list_elem_of_here.
        -- apply list_elem_of_further, list_elem_of_here.
      * destruct Hacc as [-> ->].
        split; [intros Hd; apply Hfresh; by apply Hsub|].
        rewrite !elem_of_app. split; left.
        -- apply list_elem_of_here.
        -- apply list_elem_of_further, list_elem_of_here.
    + assert (r0 ≠ r) as Hr.
      { intros ->. apply Hfresh. rewrite (Hown id0) by apply list_elem_of_here.
        apply list_elem_of_fmap. by exists (id, r). }
      assert (id0 ≠ id) as Hid.
      { intros ->. apply Hfresh. apply list_elem_of_fmap. by exists (id, r). }
      assert (h1 !! r = h !! r) as Hsame
        by (apply (frame_attempt_other _ _ _ _ _ _ _ _ Hf); congruence).
      assert (∀ id', (id', r) ∈ cs → id' = id) as Hown'
        by (intros id' ?; apply Hown; by apply list_elem_of_further).
      specialize (IH _ _ _ _ _ _ Hp Hnd Hin Hown'). rewrite Hsame in IH.
      destruct (accepts_frame (default open_Response (h !! r)));
        destruct thrown as [err|]; injection Hpass as ? ? ?; subst.
      * destruct IH as (? & ? & ?).
        split; [apply not_elem_of_cons; split; [congruence|done]|].
        rewrite !elem_of_app. tauto.
      * destruct IH as (? & ? & ?). rewrite !elem_of_app. tauto.
      * destruct IH as (? & err' & Herr).
        split; [by apply list_elem_of_further|]. exists err'.
        rewrite !elem_of_app. tauto.
      * destruct IH as (? & err' & Herr). split; [done|]. exists err'.
        rewrite !elem_of_app. tauto.
Qed.

Lemma Map_get_elem_NoDup {V} (k : string) (v : V) (m : list (string * V)) :
  NoDup m.*1 → (k, v) ∈ m → Map_get k m = Some v.
Proof.
  induction m as [|[k' v'] m IH]; intros Hnd Hin; [by apply elem_of_nil in Hin|].
  rewrite fmap_cons in Hnd. cbn [fst] in Hnd. apply NoDup_cons in Hnd as [Hfresh Hnd].
  cbn. apply elem_of_cons in Hin as [[= -> ->]|Hin].
  - by rewrite decide_True.
  - rewrite decide_False; [by apply IH|].
    intros ->. apply Hfresh. apply list_elem_of_fmap. by exists (k, v).
Qed.

(** [broadcast] is the pass over the registry followed by the removal of
    the clients the pass found dead. *)
Lemma broadcast_pass_run e d w writes dead h1 :
  broadcast_pass e (message_object e d (now w)) (clients w) (heap w) = (writes, dead, h1) →
  broadcast e d w =
    for_of dead removeClient
      (mkWorld (clients w) (messageQueues w) h1 (now w) (timers w) (trace w ++ writes)).
Proof.
  intros Hp. unfold broadcast. run_M.
  rewrite (broadcast_loop_pass _ _ _ [] w writes dead h1 Hp). by rewrite app_nil_l.
Qed.

(** ** The short-polling branch, write by write *)

Lemma handleSSEConnection_poll_trace (w : World) (req : Request) (res : ref)
    (clientId : string) :
  query_client_id req = Some clientId →
  clientId ≠ EmptyString →
  isShortPolling req = true →
  ∃ body c h',
    eval (poll_response clientId (negb (falsy (query_last_event_id req)))) w = Normal body
    ∧ handleSSEConnection req res w =
        (c, mkWorld (clients w) (<[clientId := []]> (messageQueues w)) h' (now w) (timers w)
              (trace w ++ sse_header_events res "close"
                 ++ EvWrite res body (next_call (deref w res)).1
                 :: match (next_call (deref w res)).1 with
                    | Some _ => []
                    | None => [EvEnd res (next_call (next_call (deref w res)).2).1]
                    end))
    ∧ c = match (next_call (deref w res)).1 with
          | Some err => Throw err
          | None => completion_of (next_call (next_call (deref w res)).2).1
          end.
Proof.
  intros Hid Hne Hpoll. unfold handleSSEConnection, eval.
  rewrite Hid, Hpoll. cbn [default].
  assert (falsy (Some clientId) = false) as -> by by destruct clientId.
  unfold mbind at 1, M_bind at 1, bind at 1. rewrite sse_headers_run.
  unfold mbind at 1, M_bind at 1, bind at 1. rewrite !poll_response_run. cbn zeta.
  set (body := _ +:+ _). unfold set_messageQueues.
  cbn [clients messageQueues heap now timers trace fst].
  unfold mbind, M_bind, bind. rewrite Response_write_script. unfold deref. cbn [heap].
  destruct (next_call (default open_Response (heap w !! res))) as [[e1|] o1]; cbn.
  - eexists body, _, _. split; [reflexivity|]. split; [|reflexivity].
    rewrite <- app_assoc. reflexivity.
  - unfold Response_end, deref. cbn [heap]. rewrite lookup_insert_eq. cbn.
    destruct (next_call o1) as [[e2|] o2]; run_M.
    + eexists body, _, _. split; [reflexivity|]. split; [|reflexivity].
      rewrite <- !app_assoc. reflexivity.
    + eexists body, _, _. split; [reflexivity|]. split; [|reflexivity].
      rewrite <- !app_assoc. reflexivity.
Qed.

(** * Properties of the notification layer *)

(** ** Targeted sends *)

(** C3. For a client id with neither a registry entry nor a queue,
    [sendToClient] returns [false]; the registry, the queue store, the
    response objects and the timers are what they were (no state is created
    for the id), and the only effect is the warning on the console. *)
Theorem sendToClient_unknown_client (w : World) (clientId eventType : string) (data : json) :
  Map_get clientId (clients w) = None →
  messageQueues w !! clientId = None →
  let w' := exec (sendToClient clientId eventType data) w in
  eval (sendToClient clientId eventType data) w = Normal false
  ∧ clients w' = clients w
  ∧ messageQueues w' = messageQueues w
  ∧ heap w' = heap w
  ∧ timers w' = timers w
  ∧ trace w' =
      trace w ++ [EvWarn ("Client " +:+ clientId +:+ " not found and no message queue")].
Proof.
  intros Hc Hq w'. subst w'. unfold eval, exec.
  by rewrite sendToClient_unknown_run.
Qed.

(** C3 at a freshly started process, for an id nobody registered. *)
Lemma sendToClient_unknown_client_witness :
  Map_get "ghost" (clients (boot 0)) = None
  ∧ messageQueues (boot 0) !! "ghost" = None
  ∧ eval (sendToClient "ghost" "analysis_progress" JNull) (boot 0) = Normal false
  ∧ messageQueues (exec (sendToClient "ghost" "analysis_progress" JNull) (boot 0)) = ∅.
Proof.
  pose proof (sendToClient_unknown_client (boot 0) "ghost" "analysis_progress" JNull
                eq_refl eq_refl) as H.
  split; [reflexivity|]. split; [reflexivity|]. split; [apply H|apply H].
Defined.

(** C4. [getPendingMessages] (drain) returns everything queued for the id,
    in queue order, and leaves the queue empty in the same step; it returns
    the empty list when the queue is empty or the id has no queue (and then
    creates none); it touches no other queue and nothing else of the world;
    and draining again at once returns the empty list and changes nothing. *)
Theorem getPendingMessages_drains (w : World) (clientId : string) :
  let w' := exec (getPendingMessages clientId) w in
  eval (getPendingMessages clientId) w = Normal (default [] (messageQueues w !! clientId))
  ∧ messageQueues w' !! clientId = (λ _, []) <$> messageQueues w !! clientId
  ∧ (∀ other, other ≠ clientId → messageQueues w' !! other = messageQueues w !! other)
  ∧ clients w' = clients w
  ∧ heap w' = heap w
  ∧ timers w' = timers w
  ∧ trace w' = trace w
  ∧ getPendingMessages clientId w' = (Normal [], w').
Proof.
  intros w'. subst w'. unfold eval, exec. rewrite !getPendingMessages_run. cbn.
  destruct (messageQueues w !! clientId) as [[|m q]|] eqn:E; cbn.
  - rewrite E. by repeat split.
  - rewrite lookup_insert_eq. repeat split; try done.
    intros other Hne. by rewrite lookup_insert_ne.
  - rewrite E. by repeat split.
Qed.

(** C1 (the code at the failing input). A client registered without a push
    handle is sent 1001 messages: its queue then holds all 1001 of them, the
    oldest still first; nothing was evicted at 1000. *)
Theorem sendToClient_queue_only_keeps_1001 :
  let w := exec (send_numbered "c2" 1 1001) (exec (addClient "c2" None) (boot 0)) in
  messageQueues w !! "c2" = Some (numbered_from 1 1001)
  ∧ length (numbered_from 1 1001) = 1001%nat
  ∧ head (numbered_from 1 1001) = Some (numbered 1).
Proof.
  cbv zeta. split; [|split; reflexivity].
  unfold exec at 1.
  rewrite (send_numbered_queue_only _ _ _ _ []); [apply lookup_insert_eq|reflexivity|].
  unfold exec. rewrite addClient_run. apply lookup_insert_eq.
Qed.

(** The push branch on the same run of sends: once the 1001st message is
    pushed the oldest is shifted out and 1000 remain. *)
Example sendToClient_push_shifts_at_1001 :
  let w := exec (send_numbered "c1" 1 1001) (exec (addClient "c1" (Some 1%nat)) (boot 0)) in
  messageQueues w !! "c1" = Some (numbered_from 2 1000).
Proof. cbv zeta. vm_compute. reflexivity. Qed.

(** C2 (amended). For a client registered with a push handle, a
    successful [sendToClient] writes the frame (event line, then data line
    stamped with the time of the call) to that handle. When the client's
    queue exists it also appends the same event type and payload to it,
    shifting the oldest entry out when the length passes 1000, and the
    message is the last one a drain then returns. When the queue does not
    exist nothing is queued and a drain returns nothing. *)
Theorem sendToClient_dual_write (w : World) (clientId eventType : string) (data : json)
    (r : ref) :
  Map_get clientId (clients w) = Some r →
  eval (sendToClient clientId eventType data) w = Normal true →
  let w' := exec (sendToClient clientId eventType data) w in
  trace w' = trace w ++ frame_events r eventType data (now w)
  ∧ match messageQueues w !! clientId with
    | Some queue =>
        let queued := shift_over_1000 (queue ++ [mkQueued eventType data]) in
        messageQueues w' !! clientId = Some queued
        ∧ eval (getPendingMessages clientId) w' = Normal queued
        ∧ last queued = Some (mkQueued eventType data)
    | None =>
        messageQueues w' = messageQueues w
        ∧ eval (getPendingMessages clientId) w' = Normal []
    end.
Proof.
  intros Hc Hok w'. subst w'. unfold eval, exec in *.
  destruct (sendToClient_push_run clientId eventType data r w Hc)
    as [(h' & E)|(w1 & ts & E & _)]; rewrite E in *; [|done].
  rewrite getPendingMessages_run. cbn. split; [done|].
  destruct (messageQueues w !! clientId) as [queue|] eqn:Hq.
  - rewrite lookup_insert_eq. repeat split; try done. apply shift_over_1000_last.
  - by rewrite Hq.
Qed.

(** C2 right after [addClient] with a push handle. *)
Lemma sendToClient_dual_write_witness :
  let w := exec (addClient "c1" (Some 1%nat)) (boot 0) in
  Map_get "c1" (clients w) = Some 1%nat
  ∧ eval (sendToClient "c1" "analysis_progress" (JStr "go")) w = Normal true
  ∧ messageQueues w !! "c1" = Some []
  ∧ eval (getPendingMessages "c1") (exec (sendToClient "c1" "analysis_progress" (JStr "go")) w)
    = Normal [mkQueued "analysis_progress" (JStr "go")].
Proof.
  cbv zeta.
  pose proof (sendToClient_dual_write (exec (addClient "c1" (Some 1%nat)) (boot 0))
                "c1" "analysis_progress" (JStr "go") 1%nat eq_refl eq_refl) as H.
  split; [reflexivity|]. split; [reflexivity|]. split; [reflexivity|]. apply H.
Defined.

(** C2 (counterexample). In [reconnected_world] the client is registered
    with push handle 2, [sendToClient] succeeds and writes the frame to that
    handle, but the queue was deleted by the timer of the first
    disconnection: nothing is queued and a drain returns nothing. *)
Lemma dual_write_without_queue :
  Map_get "c1" (clients reconnected_world) = Some 2%nat
  ∧ eval (sendToClient "c1" "analysis_progress" (JStr "go")) reconnected_world = Normal true
  ∧ trace (exec (sendToClient "c1" "analysis_progress" (JStr "go")) reconnected_world)
    = trace reconnected_world ++ frame_events 2%nat "analysis_progress" (JStr "go") 60000
  ∧ eval (getPendingMessages "c1")
         (exec (sendToClient "c1" "analysis_progress" (JStr "go")) reconnected_world)
    = Normal [].
Proof. repeat split; vm_compute; reflexivity. Qed.

(** ** Disconnection and the grace timer *)

(** C5 (amended). [removeClient] on an id with no registry entry changes
    nothing. On a registered id it deletes the registry entry at once (the
    client count drops by one), leaves every queue as it is and schedules
    the deletion of the id's queue for 60 seconds later; and when no
    deletion scheduled by an earlier disconnection of the same id is still
    pending, a drain at any moment within those 60 seconds still returns the
    messages that were queued before the removal. *)
Theorem removeClient_keeps_queue_for_grace (w : World) (clientId : string) :
  let w' := exec (removeClient clientId) w in
  match Map_get clientId (clients w) with
  | None => removeClient clientId w = (Normal tt, w)
  | Some r =>
      Map_get clientId (clients w') = None
      ∧ messageQueues w' = messageQueues w
      ∧ timers w' = timers w ++ [(now w + 60000, clientId)]
      ∧ (registry_ok w →
         eval getClientCount w' = Normal (Map_size (clients w) - 1))
      ∧ (clientId ∉ (timers w).*2 →
         ∀ d, 0 ≤ d < 60000 →
           eval (getPendingMessages clientId) (elapse d w')
           = Normal (default [] (messageQueues w !! clientId)))
  end.
Proof.
  intros w'. subst w'. destruct (Map_get clientId (clients w)) as [r|] eqn:Hc.
  - unfold exec, eval.
    destruct (removeClient_present_run clientId r w Hc) as (h' & evs & -> & _). cbn.
    split; [apply Map_get_delete_eq|]. split; [done|]. split; [done|]. split.
    + intros Hok. f_equal. by apply (Map_delete_size _ r).
    + intros Hfree d Hd. rewrite getPendingMessages_run. cbn.
      rewrite foldl_delete_lookup. rewrite decide_False; [done|].
      intros ([t k] & Hk & [Hdue Hin]%list_elem_of_filter)%list_elem_of_fmap.
      cbn in Hk, Hdue. subst k.
      pose proof (elapse_pending_later d w clientId Hd Hfree t Hin). lia.
  - by apply removeClient_absent_run.
Qed.

(** C5 for a client that connected once and was sent one message: the
    message can still be drained a millisecond before the minute is over. *)
Lemma removeClient_keeps_queue_for_grace_witness :
  let w := exec (sendToClient "c1" "analysis_progress" (JStr "go"))
             (exec (addClient "c1" (Some 1%nat)) (boot 0)) in
  Map_get "c1" (clients w) = Some 1%nat
  ∧ registry_ok w
  ∧ ("c1" ∉ (timers w).*2)
  ∧ eval getClientCount (exec (removeClient "c1") w) = Normal 0
  ∧ eval (getPendingMessages "c1") (elapse 59999 (exec (removeClient "c1") w))
    = Normal [mkQueued "analysis_progress" (JStr "go")].
Proof.
  cbv zeta.
  set (w := exec (sendToClient "c1" "analysis_progress" (JStr "go"))
              (exec (addClient "c1" (Some 1%nat)) (boot 0))).
  assert (registry_ok w) as Hok.
  { unfold registry_ok. vm_compute. apply NoDup_singleton. }
  assert ("c1" ∉ (timers w).*2) as Hfree by (vm_compute; apply not_elem_of_nil).
  pose proof (removeClient_keeps_queue_for_grace w "c1") as H.
  change (Map_get "c1" (clients w)) with (Some 1%nat) in H.
  destruct H as (_ & _ & _ & Hcount & Hdrain).
  split; [reflexivity|]. split; [exact Hok|]. split; [exact Hfree|].
  split; [exact (Hcount Hok)|].
  apply (Hdrain Hfree 59999). lia.
Defined.

(** C5 (counterexample). In [flapping_world] the client is push-registered
    and one message is queued. [removeClient] leaves the queue in place, yet
    two seconds later, well inside the 60 seconds, the timer of the first
    disconnection deletes it: the drain returns nothing. *)
Lemma queue_deleted_within_grace :
  Map_get "c1" (clients flapping_world) = Some 2%nat
  ∧ messageQueues flapping_world !! "c1" = Some [mkQueued "analysis_progress" (JStr "go")]
  ∧ messageQueues (exec (removeClient "c1") flapping_world) !! "c1"
    = Some [mkQueued "analysis_progress" (JStr "go")]
  ∧ eval (getPendingMessages "c1") (elapse 2000 (exec (removeClient "c1") flapping_world))
    = Normal [].
Proof. repeat split; vm_compute; reflexivity. Qed.

(** C6 (amended). The deletion that [removeClient] schedules is not guarded
    by anything. If the client registers again (with or without a push
    handle) [d] milliseconds later, before the 60 seconds are over, it has a
    queue and the deletion is still pending. When the 60 seconds are over
    the queue is deleted, whatever was sent to the client in between and
    although the registration stands; only an [addClient] after that gives
    the client a queue again, an empty one. *)
Theorem grace_deletion_ignores_reregistration (w : World) (clientId : string) (r : ref)
    (response : option ref) (eventType : string) (data : json) (d : Z) :
  Map_get clientId (clients w) = Some r →
  0 ≤ d < 60000 →
  let back := exec (addClient clientId response) (elapse d (exec (removeClient clientId) w)) in
  let expired := elapse (60000 - d) back in
  let sent := exec (sendToClient clientId eventType data) back in
  is_Some (messageQueues back !! clientId)
  ∧ (now w + 60000, clientId) ∈ timers back
  ∧ Map_get clientId (clients expired) = response
  ∧ messageQueues expired !! clientId = None
  ∧ messageQueues (elapse (60000 - d) sent) !! clientId = None
  ∧ messageQueues (exec (addClient clientId response) expired) !! clientId = Some [].
Proof.
  intros Hc Hd back expired sent.
  assert ((now w + 60000, clientId) ∈ timers back ∧ now back = now w + d
          ∧ is_Some (messageQueues back !! clientId)
          ∧ Map_get clientId (clients back) = response) as (Hin & Hnow & Hq & Hreg).
  { subst back. unfold exec.
    destruct (removeClient_present_run clientId r w Hc) as (h' & evs & -> & _).
    rewrite addClient_run. cbn. split; [|split; [done|split]].
    - apply list_elem_of_filter. cbn. split; [lia|].
      apply elem_of_app. right. apply list_elem_of_here.
    - destruct (foldl _ _ _ !! clientId) eqn:E; [by rewrite E|by rewrite lookup_insert_eq].
    - destruct response as [r'|]; [apply Map_get_set_eq|apply Map_get_delete_eq]. }
  assert (messageQueues expired !! clientId = None) as Hgone.
  { subst expired. apply (elapse_fires _ _ (now w + 60000)); [done|lia]. }
  split; [done|]. split; [done|]. split; [done|]. split; [done|]. split.
  - subst sent.
    destruct (sendToClient_timers clientId eventType data back) as (ok & ts & _ & Hnow' & Hts).
    apply (elapse_fires _ _ (now w + 60000)); [|lia].
    rewrite Hts. apply elem_of_app. by left.
  - unfold exec. rewrite addClient_run. cbn [snd messageQueues].
    fold expired. rewrite Hgone. apply lookup_insert_eq.
Qed.

(** C6 for a client that reconnects half-way through the delay. *)
Lemma grace_deletion_ignores_reregistration_witness :
  let w := exec (addClient "c1" (Some 1%nat)) (boot 0) in
  Map_get "c1" (clients w) = Some 1%nat
  ∧ 0 ≤ 30000 < 60000
  ∧ messageQueues
      (elapse (60000 - 30000)
         (exec (addClient "c1" (Some 2%nat)) (elapse 30000 (exec (removeClient "c1") w))))
      !! "c1" = None.
Proof.
  cbv zeta.
  assert (0 ≤ 30000 < 60000) as Hd by lia.
  pose proof (grace_deletion_ignores_reregistration
                (exec (addClient "c1" (Some 1%nat)) (boot 0)) "c1" 1%nat (Some 2%nat)
                "analysis_progress" (JStr "go") 30000 eq_refl Hd) as H.
  split; [reflexivity|]. split; [exact Hd|]. apply H.
Defined.

(** C6 (counterexample). The client re-registered 30 seconds after
    [removeClient], half-way through the delay, and has a message in its
    queue; at the end of the delay the scheduled deletion runs all the same:
    the client is still registered and its queue, message included, is gone. *)
Lemma reregistered_queue_deleted :
  Map_get "c1" (clients returning_world) = Some 2%nat
  ∧ messageQueues returning_world !! "c1" = None
  ∧ eval (getPendingMessages "c1") returning_world = Normal [].
Proof. repeat split; vm_compute; reflexivity. Qed.

(** ** Broadcast *)

(** The second of three clients is dead: the third is written to all the
    same, the second is removed after the loop, and no queue changes. *)
Example broadcast_past_a_dead_client :
  let message := message_object "batch_start" JNull 0 in
  let w' := exec (broadcast "batch_start" JNull) three_clients in
  trace w'
  = [EvWrite 1%nat (event_line "batch_start") None;
     EvWrite 1%nat (data_line message) None;
     EvWrite 2%nat (event_line "batch_start") (Some (mkErrno (Some "EPIPE") "write EPIPE"));
     EvWrite 3%nat (event_line "batch_start") None;
     EvWrite 3%nat (data_line message) None;
     EvEnd 2%nat None]
  ∧ clients w' = [("a", 1%nat); ("c", 3%nat)]
  ∧ timers w' = [(60000, "b")]
  ∧ messageQueues w' = messageQueues three_clients.
Proof. cbv zeta. repeat split; vm_compute; reflexivity. Qed.

(** C7. [broadcast] runs to its end whatever the writes do. Its trace is a
    pass of writes over the whole registry followed by the removals: every
    registered handle has its write attempted, in registry order, also after
    an earlier client's write has thrown ([attempts]); no response is ended
    during that pass and nothing is written during the removals; the clients
    whose write threw are exactly the ones removed from the registry
    afterwards; and no queue, of a push client or of any other, is changed.

    What a write does is what the response it goes to does: the pass is
    [broadcast_pass], read off the response objects of the world the
    broadcast starts in, and the world after the broadcast is the world
    after that pass with the dead clients removed one after the other. For
    a client whose response is registered under no other id this comes to:
    when the response accepts the frame, both lines are written to it
    without error and the client is still registered with it afterwards;
    when it does not, one of the two writes throws and the client is no
    longer registered afterwards. *)
Theorem broadcast_attempts_every_client (w : World) (eventType : string) (data : json) :
  let w' := exec (broadcast eventType data) w in
  let message := message_object eventType data (now w) in
  ∃ writes deadClients closes,
    eval (broadcast eventType data) w = Normal tt
    ∧ trace w' = trace w ++ writes ++ closes
    ∧ attempts eventType message (clients w) writes deadClients
    ∧ (∀ clientId r, (clientId, r) ∈ clients w →
         ∃ thrown, EvWrite r (event_line eventType) thrown ∈ writes)
    ∧ existsb is_end writes = false
    ∧ existsb is_write closes = false
    ∧ clients w' = filter (λ kv, kv.1 ∉ deadClients) (clients w)
    ∧ messageQueues w' = messageQueues w
    ∧ (∃ h1,
         broadcast_pass eventType message (clients w) (heap w) = (writes, deadClients, h1)
         ∧ w' = exec (for_of deadClients removeClient)
                  (mkWorld (clients w) (messageQueues w) h1 (now w) (timers w)
                           (trace w ++ writes)))
    ∧ (registry_ok w →
       ∀ clientId r,
         (clientId, r) ∈ clients w →
         (∀ other, (other, r) ∈ clients w → other = clientId) →
         if accepts_frame (deref w r)
         then EvWrite r (event_line eventType) None ∈ writes
              ∧ EvWrite r (data_line message) None ∈ writes
              ∧ Map_get clientId (clients w') = Some r
         else (∃ err, EvWrite r (event_line eventType) (Some err) ∈ writes
                      ∨ EvWrite r (data_line message) (Some err) ∈ writes)
              ∧ Map_get clientId (clients w') = None).
Proof.
  intros w' message. subst w'.
  destruct (broadcast_pass eventType message (clients w) (heap w))
    as [[writes dead] h1] eqn:Hp.
  pose proof (broadcast_pass_run _ _ _ _ _ _ Hp) as Hrun.
  pose proof (broadcast_pass_attempts _ _ _ _ _ _ _ Hp) as Hatt.
  destruct (remove_all_run dead
              (mkWorld (clients w) (messageQueues w) h1 (now w) (timers w)
                       (trace w ++ writes)))
    as (h2 & closes & ts & Hrem & Hcl).
  cbn [clients messageQueues heap now timers trace] in Hrem.
  unfold eval, exec. rewrite Hrun, Hrem. cbn [fst snd clients messageQueues trace].
  exists writes, dead, closes.
  split; [done|]. split; [by rewrite <- app_assoc|]. split; [done|].
  split; [by apply (attempts_cover _ _ _ _ _ Hatt)|].
  split; [by apply (attempts_no_end _ _ _ _ _ Hatt)|].
  split; [by apply closing_no_write|]. split; [done|]. split; [done|].
  split; [exists h1; split; [done|]; by rewrite Hrem|].
  intros Hok clientId r Hin Hown.
  pose proof (broadcast_pass_entry _ _ _ _ _ _ _ _ _ Hp Hok Hin Hown) as He.
  unfold deref. destruct (accepts_frame (default open_Response (heap w !! r))).
  - destruct He as (Hnd & H1 & H2). split; [done|]. split; [done|].
    apply Map_get_elem_NoDup.
    + eapply sublist_NoDup; [exact Hok|]. apply fmap_sublist, sublist_filter.
    + apply list_elem_of_filter. by split.
  - destruct He as (Hd & err & Herr). split; [by exists err|].
    apply Map_get_None.
    intros ([k v] & -> & [Hk _]%list_elem_of_filter)%list_elem_of_fmap. by apply Hk.
Qed.

(** C10. [broadcast] leaves the queue store exactly as it was, the queues
    of push-registered clients included: for every client id a drain after
    the broadcast returns what a drain before it would have returned, so
    only targeted sends ever reach a queue. *)
Theorem broadcast_leaves_queues (w : World) (eventType : string) (data : json) :
  let w' := exec (broadcast eventType data) w in
  messageQueues w' = messageQueues w
  ∧ ∀ clientId,
      eval (getPendingMessages clientId) w' = eval (getPendingMessages clientId) w.
Proof.
  intros w'. subst w'. unfold eval, exec.
  destruct (broadcast_run eventType data w)
    as (h' & writes & dead & closes & ts & -> & _ & _).
  split; [done|]. intros clientId. by rewrite !getPendingMessages_run.
Qed.

(** ** Short polling *)

(** C8 (amended). In poll mode the whole response is the headers, one
    write, and (unless that write threw) the end of the response: the
    handler writes the body in one piece and writes nothing after it. With
    a replay cursor the body is exactly the frames of the drained messages,
    in queue order, one per message, and has no [connected] event; in
    particular it is empty when nothing was pending. Without a cursor the
    body starts with the [connected] event, whether or not the queue was
    empty, and the frames follow; when the queue was not empty nothing
    follows the frames. *)
Theorem poll_mode_body (w : World) (req : Request) (res : ref) (clientId : string) :
  query_client_id req = Some clientId →
  clientId ≠ EmptyString →
  isShortPolling req = true →
  let hasLastEventId := negb (falsy (query_last_event_id req)) in
  let pendingMessages := default [] (messageQueues w !! clientId) in
  ∃ body trailer thrown rest,
    trace (exec (handleSSEConnection req res) w)
    = trace w ++ sse_header_events res "close" ++ EvWrite res body thrown :: rest
    ∧ body = (if hasLastEventId then EmptyString else connected_frame clientId)
             +:+ frames_text (now w) pendingMessages +:+ trailer
    ∧ (if hasLastEventId || negb (bool_decide (pendingMessages = []))
       then trailer = EmptyString else True)
    ∧ thrown = (next_call (deref w res)).1
    ∧ rest = match thrown with
             | Some _ => []
             | None => [EvEnd res (next_call (next_call (deref w res)).2).1]
             end
    ∧ existsb is_write rest = false
    ∧ (hasLastEventId = true → body = frames_text (now w) pendingMessages).
Proof.
  intros Hid Hne Hpoll hasLastEventId pendingMessages.
  destruct (handleSSEConnection_poll_trace w req res clientId Hid Hne Hpoll)
    as (body & c & h' & Hbody & Hrun & _).
  unfold eval in Hbody. rewrite poll_response_run in Hbody. cbn in Hbody.
  injection Hbody as <-. fold hasLastEventId pendingMessages.
  unfold exec. rewrite Hrun. cbn [snd trace].
  eexists _, _, _, _. split; [reflexivity|]. split; [reflexivity|].
  split.
  { subst hasLastEventId pendingMessages.
    by destruct (falsy (query_last_event_id req)),
         (messageQueues w !! clientId) as [[|m q]|]. }
  split; [reflexivity|]. split; [reflexivity|].
  split; [by destruct (next_call (deref w res)).1|].
  intros Hcursor. subst hasLastEventId. rewrite Hcursor. cbn [negb].
  rewrite andb_false_r, append_nil_r. reflexivity.
Qed.

(** C8 for a first poll with a cursor and nothing pending: the body is
    empty, and the end of the response is all that follows it. *)
Lemma poll_mode_body_witness :
  let req := mkRequest (Some "c2") (Some "true") (Some "1") None in
  query_client_id req = Some "c2"
  ∧ "c2" ≠ EmptyString
  ∧ isShortPolling req = true
  ∧ ∃ body trailer thrown rest,
      trace (exec (handleSSEConnection req 9%nat) (boot 0))
      = trace (boot 0) ++ sse_header_events 9%nat "close" ++ EvWrite 9%nat body thrown :: rest
      ∧ body = EmptyString +:+ frames_text 0 [] +:+ trailer
      ∧ trailer = EmptyString
      ∧ rest = [EvEnd 9%nat None].
Proof.
  cbv zeta.
  destruct (poll_mode_body (boot 0) (mkRequest (Some "c2") (Some "true") (Some "1") None)
              9%nat "c2" eq_refl ltac:(discriminate) eq_refl)
    as (body & trailer & thrown & rest & Htr & Hb & Ht & Hth & Hrest & _).
  split; [reflexivity|]. split; [discriminate|]. split; [reflexivity|].
  exists body, trailer, thrown, rest.
  split; [exact Htr|]. split; [exact Hb|]. split; [exact Ht|].
  rewrite Hrest, Hth. reflexivity.
Defined.

(** C8 (counterexample). A poll without cursor of a client whose queue is
    not empty: the body is the [connected] event followed by the frame of
    the queued message. *)
Lemma connected_event_with_pending_messages :
  let req := mkRequest (Some "c2") (Some "true") None None in
  messageQueues waiting_world !! "c2" = Some [mkQueued "analysis_progress" (JStr "go")]
  ∧ trace (exec (handleSSEConnection req 9%nat) waiting_world)
    = sse_header_events 9%nat "close"
      ++ [EvWrite 9%nat
            (connected_frame "c2"
             +:+ frame_text 0 (mkQueued "analysis_progress" (JStr "go"))) None;
          EvEnd 9%nat None]
  ∧ String.prefix "event: connected"
      (connected_frame "c2" +:+ frame_text 0 (mkQueued "analysis_progress" (JStr "go")))
    = true.
Proof. cbv zeta. repeat split; vm_compute; reflexivity. Qed.

(** C9 (amended). A queued message is an event type and a payload and
    nothing else: it has no timestamp. The frame that [sendToClient] or
    [broadcast] writes to a push handle is stamped with the time of that
    call. When a message sent at one moment is drained by a poll [d]
    milliseconds later, the timestamp in its frame, and in the frame of
    every message drained with it, is the time of the poll. *)
Theorem poll_frame_stamped_at_poll (w : World) (clientId eventType : string) (data : json)
    (hasLastEventId : bool) (d : Z) :
  is_Some (messageQueues w !! clientId) →
  eval (sendToClient clientId eventType data) w = Normal true →
  clientId ∉ (timers w).*2 →
  0 ≤ d →
  let sent := exec (sendToClient clientId eventType data) w in
  (∃ earlier,
     messageQueues sent !! clientId = Some (earlier ++ [mkQueued eventType data])
     ∧ eval (poll_response clientId hasLastEventId) (elapse d sent)
       = Normal ((if hasLastEventId then EmptyString else connected_frame clientId)
                 +:+ frames_text (now w + d) earlier
                 +:+ event_line eventType
                 +:+ data_line (message_object eventType data (now w + d))))
  ∧ trace sent
    = trace w ++ match Map_get clientId (clients w) with
                 | Some r => frame_events r eventType data (now w)
                 | None => []
                 end
  ∧ ∃ writes deadClients closes,
      trace (exec (broadcast eventType data) w) = trace w ++ writes ++ closes
      ∧ attempts eventType (message_object eventType data (now w)) (clients w)
          writes deadClients.
Proof.
  intros [queue Hq] Hok Hfree Hd sent. subst sent. unfold exec, eval.
  destruct (sendToClient_ok_run clientId eventType data queue w Hq Hok)
    as (earlier & h' & ->).
  cbn [snd messageQueues trace]. split; [|split; [done|]].
  - exists earlier. split; [apply lookup_insert_eq|].
    rewrite poll_response_run. cbn [fst].
    rewrite elapse_keeps.
    + cbn [messageQueues now elapse]. rewrite lookup_insert_eq. unfold default, id.
      rewrite frames_text_app. cbn [frames_text]. unfold frame_text.
      replace (bool_decide (length (earlier ++ [mkQueued eventType data]) = 0%nat)) with false.
      * cbn. by rewrite !append_assoc, !append_nil_r.
      * symmetry. apply bool_decide_eq_false. rewrite length_app. cbn. lia.
    + cbn [timers]. intros t Hin. exfalso. apply Hfree.
      apply list_elem_of_fmap. by exists (t, clientId).
  - destruct (broadcast_run eventType data w)
      as (hb & writes & dead & closes & ts & -> & Hatt & _).
    by exists writes, dead, closes.
Qed.

(** C9 for a poll-mode client polled five seconds after the send. *)
Lemma poll_frame_stamped_at_poll_witness :
  let w := exec (addClient "c2" None) (boot 0) in
  is_Some (messageQueues w !! "c2")
  ∧ eval (sendToClient "c2" "analysis_progress" (JStr "go")) w = Normal true
  ∧ ("c2" ∉ (timers w).*2)
  ∧ 0 ≤ 5000
  ∧ ∃ earlier,
      messageQueues (exec (sendToClient "c2" "analysis_progress" (JStr "go")) w) !! "c2"
      = Some (earlier ++ [mkQueued "analysis_progress" (JStr "go")])
      ∧ eval (poll_response "c2" true)
             (elapse 5000 (exec (sendToClient "c2" "analysis_progress" (JStr "go")) w))
        = Normal (EmptyString +:+ frames_text (0 + 5000) earlier
                  +:+ event_line "analysis_progress"
                  +:+ data_line (message_object "analysis_progress" (JStr "go") (0 + 5000))).
Proof.
  cbv zeta.
  set (w := exec (addClient "c2" None) (boot 0)).
  assert (is_Some (messageQueues w !! "c2")) as Hq by (by exists []).
  assert ("c2" ∉ (timers w).*2) as Hfree by (vm_compute; apply not_elem_of_nil).
  assert (0 ≤ 5000) as Hd by lia.
  split; [exact Hq|]. split; [reflexivity|]. split; [exact Hfree|]. split; [exact Hd|].
  exact (proj1 (poll_frame_stamped_at_poll w "c2" "analysis_progress" (JStr "go") true 5000
                  Hq eq_refl Hfree Hd)).
Defined.

(** C9 (counterexample). The frame of the message created at 00:00:00
    carries 00:00:05, the time of the poll, and so differs from the frame
    stamped with the creation time. *)
Lemma poll_frame_not_stamped_at_creation :
  polled_later
  = Normal (event_line "analysis_progress"
            +:+ data_line (JObj [("event", JStr "analysis_progress"); ("data", JStr "go");
                                 ("timestamp", JStr "1970-01-01T00:00:05.000Z")]))
  ∧ toISOString 0 = "1970-01-01T00:00:00.000Z"
  ∧ polled_later
    ≠ Normal (event_line "analysis_progress"
              +:+ data_line (message_object "analysis_progress" (JStr "go") 0)).
Proof.
  split; [vm_compute; reflexivity|]. split; [vm_compute; reflexivity|].
  vm_compute. discriminate.
Qed.

(** * More of the notification layer *)

(** ** Registration *)

Lemma Map_set_idem {V} (k : string) (v : V) (m : list (string * V)) :
  Map_set k v (Map_set k v m) = Map_set k v m.
Proof.
  induction m as [|[k' v'] m IH]; cbn; [by rewrite decide_True|].
  destruct (decide (k' = k)) as [->|Hne]; cbn.
  - by rewrite decide_True.
  - by rewrite decide_False, IH.
Qed.

Lemma Map_set_size {V} (k : string) (v : V) (m : list (string * V)) :
  Map_size (Map_set k v m)
  = Map_size m + match Map_get k m with Some _ => 0 | None => 1 end.
Proof.
  unfold Map_size. induction m as [|[k' v'] m IH]; cbn; [done|].
  destruct (decide (k' = k)); cbn; [lia|].
  cbn in IH. lia.
Qed.

(** ** Sends that fail *)

Lemma sendToClient_catch_present_run clientId err r w :
  Map_get clientId (clients w) = Some r →
  ∃ h' closes,
    sendToClient_catch clientId err w =
      (Normal false,
       mkWorld (Map_delete clientId (clients w)) (messageQueues w) h' (now w)
               (timers w ++ [(now w + 60000, clientId)])
               (trace w ++ sendToClient_log clientId err ++ closes))
    ∧ forallb closing_event closes = true.
Proof.
  intros H. unfold sendToClient_catch, sendToClient_log. run_M.
  destruct (normal_disconnect err).
  - destruct (removeClient_present_run clientId r w H) as (h' & evs & -> & Hevs).
    by exists h', evs.
  - match goal with |- context [removeClient clientId ?w2] =>
      destruct (removeClient_present_run clientId r w2 H) as (h' & evs & -> & Hevs) end.
    exists h', evs. cbn. by rewrite <- app_assoc.
Qed.

(** The push branch of [sendToClient] when the response accepts both
    writes. *)
Lemma sendToClient_push_ok_run clientId e d r w :
  Map_get clientId (clients w) = Some r →
  accepts_frame (deref w r) = true →
  ∃ h',
    sendToClient clientId e d w =
      (Normal true,
       mkWorld (clients w)
               (match messageQueues w !! clientId with
                | Some queue =>
                    <[clientId := shift_over_1000 (queue ++ [mkQueued e d])]> (messageQueues w)
                | None => messageQueues w
                end)
               h' (now w) (timers w) (trace w ++ frame_events r e d (now w))).
Proof.
  intros H Hacc. rewrite accepts_frame_calls in Hacc.
  unfold sendToClient. run_M. rewrite H. run_M.
  rewrite Response_write_script.
  destruct (next_call (deref w r)) as [[e1|] o1] eqn:E1; [done|]. cbn in *.
  rewrite Response_write_script. unfold deref. cbn [heap].
  rewrite !lookup_insert_eq. cbn.
  destruct (next_call o1) as [[e2|] o2] eqn:E2; [done|]. cbn.
  destruct (messageQueues w !! clientId) as [queue|]; cbn;
    rewrite <- app_assoc; eexists; reflexivity.
Qed.

(** The push branch when one of the two writes throws. *)
Lemma sendToClient_push_fail_run clientId e d r w :
  Map_get clientId (clients w) = Some r →
  accepts_frame (deref w r) = false →
  ∃ err writes closes h',
    sendToClient clientId e d w =
      (Normal false,
       mkWorld (Map_delete clientId (clients w)) (messageQueues w) h' (now w)
               (timers w ++ [(now w + 60000, clientId)])
               (trace w ++ writes ++ sendToClient_log clientId err ++ closes))
    ∧ failed_writes r e (message_object e d (now w)) err writes
    ∧ forallb closing_event closes = true.
Proof.
  intros H Hacc. rewrite accepts_frame_calls in Hacc.
  unfold sendToClient. run_M. rewrite H. run_M.
  rewrite Response_write_script.
  destruct (next_call (deref w r)) as [[e1|] o1] eqn:E1; cbn in *.
  - match goal with |- context [sendToClient_catch clientId e1 ?w1] =>
      destruct (sendToClient_catch_present_run clientId e1 r w1 H)
        as (h' & closes & -> & Hc) end.
    exists e1, [EvWrite r (event_line e) (Some e1)], closes, h'. cbn.
    split; [by rewrite <- app_assoc|]. split; [by left|done].
  - rewrite Response_write_script. unfold deref. cbn [heap].
    rewrite !lookup_insert_eq. cbn.
    destruct (next_call o1) as [[e2|] o2] eqn:E2; [|done]. cbn.
    match goal with |- context [sendToClient_catch clientId e2 ?w1] =>
      destruct (sendToClient_catch_present_run clientId e2 r w1 H)
        as (h' & closes & -> & Hc) end.
    eexists e2, [_; _], closes, h'. cbn.
    split; [by rewrite <- !app_assoc|]. split; [by right|done].
Qed.

Lemma sendToClient_result clientId e d w :
  eval (sendToClient clientId e d) w
  = Normal (match Map_get clientId (clients w) with
            | Some r => accepts_frame (deref w r)
            | None => bool_decide (is_Some (messageQueues w !! clientId))
            end).
Proof.
  unfold eval. destruct (Map_get clientId (clients w)) as [r|] eqn:Hc.
  - destruct (accepts_frame (deref w r)) eqn:Hacc.
    + by destruct (sendToClient_push_ok_run clientId e d r w Hc Hacc) as (h' & ->).
    + by destruct (sendToClient_push_fail_run clientId e d r w Hc Hacc)
        as (err & writes & closes & h' & -> & _).
  - destruct (messageQueues w !! clientId) as [queue|] eqn:Hq.
    + rewrite (sendToClient_queue_only_run _ _ _ _ queue) by done.
      by rewrite bool_decide_eq_true_2.
    + rewrite sendToClient_unknown_run by done.
      rewrite bool_decide_eq_false_2; [done|]. by intros [? ?].
Qed.

(** ** Runs of sends *)

Lemma bind_run {A B} (m : M A) (k : A → M B) (w : World) :
  (m ≫= k) w = match m w with
               | (Normal a, w') => k a w'
               | (Throw e, w') => (Throw e, w')
               end.
Proof. reflexivity. Qed.

Lemma ret_run {A} (a : A) (w : World) : mret (M := M) a w = (Normal a, w).
Proof. reflexivity. Qed.

Lemma send_all_queue_only clientId msgs :
  ∀ w queue,
    Map_get clientId (clients w) = None →
    messageQueues w !! clientId = Some queue →
    send_all clientId msgs w =
      (Normal tt, set_messageQueues <[clientId := queue ++ msgs]> w).
Proof.
  unfold send_all. induction msgs as [|[e d] msgs IH]; intros w queue Hc Hq.
  - cbn. unfold mret, M_ret, ret, set_messageQueues. rewrite app_nil_r, insert_id by done.
    by destruct w.
  - cbn [for_of eventType data]. rewrite !bind_run.
    rewrite (sendToClient_queue_only_run _ _ _ _ queue) by done.
    cbv beta iota. rewrite ret_run. cbv beta iota.
    rewrite (IH _ (queue ++ [mkQueued e d])); [|done|apply lookup_insert_eq].
    unfold set_messageQueues. cbn. by rewrite insert_insert_eq, <- app_assoc.
Qed.

(** ** The push branch of the handler *)

Lemma handleSSEConnection_push_run (w : World) (req : Request) (res : ref) (clientId : string) :
  query_client_id req = Some clientId →
  clientId ≠ EmptyString →
  isShortPolling req = false →
  ∃ thrown h',
    handleSSEConnection req res w =
      (completion_of thrown,
       mkWorld (Map_set clientId res (clients w))
               (match messageQueues w !! clientId with
                | Some _ => messageQueues w
                | None => <[clientId := []]> (messageQueues w)
                end)
               h' (now w) (timers w)
               (trace w ++ sse_header_events res "keep-alive"
                  ++ [EvFlushHeaders res; EvWrite res (connected_frame clientId) thrown])).
Proof.
  intros Hid Hne Hpoll. unfold handleSSEConnection.
  rewrite Hid, Hpoll. cbn [default].
  assert (falsy (Some clientId) = false) as -> by by destruct clientId.
  rewrite bind_run, sse_headers_run.
  rewrite bind_run. unfold modify at 1, emit at 1. cbn [clients messageQueues heap now timers trace].
  rewrite bind_run, addClient_run. cbn [clients messageQueues heap now timers trace].
  rewrite Response_write_script. cbn [clients messageQueues heap now timers trace].
  eexists _, _. rewrite <- !app_assoc. reflexivity.
Qed.

(** * Further properties of the notification layer *)

(** ** Registration *)

(** X1. [addClient] never fails, and registering again is harmless: the
    id's queue is the one it had (an empty one if it had none), a push
    handle replaces the id's entry in the registry and a call without a
    handle leaves the registry alone; no other client's entry or queue
    changes; the previous response is neither ended nor written to, no
    timer is set or cancelled; and calling it a second time with the same
    arguments changes nothing. *)
Theorem addClient_registers_and_keeps_queue (w : World) (clientId : string)
    (response : option ref) :
  let w' := exec (addClient clientId response) w in
  eval (addClient clientId response) w = Normal tt
  ∧ Map_get clientId (clients w')
    = match response with
      | Some r => Some r
      | None => Map_get clientId (clients w)
      end
  ∧ (∀ other, other ≠ clientId → Map_get other (clients w') = Map_get other (clients w))
  ∧ messageQueues w' !! clientId = Some (default [] (messageQueues w !! clientId))
  ∧ (∀ other, other ≠ clientId → messageQueues w' !! other = messageQueues w !! other)
  ∧ heap w' = heap w
  ∧ timers w' = timers w
  ∧ trace w' = trace w
  ∧ addClient clientId response w' = (Normal tt, w').
Proof.
  unfold exec, eval. rewrite addClient_run. cbn [fst snd].
  split; [done|]. cbn [clients messageQueues heap timers trace].
  split; [destruct response; [apply Map_get_set_eq|done]|].
  split.
  { intros other Hne. destruct response; [|done]. by apply Map_get_set_ne. }
  split.
  { destruct (messageQueues w !! clientId) eqn:E; [done|]. apply lookup_insert_eq. }
  split.
  { intros other Hne. destruct (messageQueues w !! clientId); [done|].
    by apply lookup_insert_ne. }
  do 3 (split; [done|]).
  rewrite addClient_run. cbn [clients messageQueues heap now timers trace].
  f_equal. f_equal.
  - destruct response; [apply Map_set_idem|done].
  - destruct (messageQueues w !! clientId) eqn:E; [by rewrite E|].
    by rewrite lookup_insert_eq.
Qed.

(** X2. [getClientCount] counts push handles: registering an id without a
    handle, or an id that already has a handle, leaves the count as it
    was; registering a handle for an id that has none raises it by one. *)
Theorem addClient_counts_push_handles (w : World) (clientId : string)
    (response : option ref) :
  eval getClientCount (exec (addClient clientId response) w)
  = Normal (Map_size (clients w)
            + match response, Map_get clientId (clients w) with
              | Some _, None => 1
              | _, _ => 0
              end).
Proof.
  unfold exec, eval, getClientCount, gets. rewrite addClient_run. cbn.
  f_equal. destruct response as [r|].
  - rewrite Map_set_size. by destruct (Map_get clientId (clients w)).
  - by rewrite Z.add_0_r.
Qed.

(** ** Targeted sends that fail *)

(** X3. [sendToClient] never throws, and what it returns is decided by the
    state it starts in: for a client with a push handle, whether the handle
    accepts the two writes of the frame; for any other id, whether the id
    has a queue. *)
Theorem sendToClient_returns_whether_delivered (w : World) (clientId eventType : string)
    (data : json) :
  eval (sendToClient clientId eventType data) w
  = Normal (match Map_get clientId (clients w) with
            | Some r => accepts_frame (deref w r)
            | None => bool_decide (is_Some (messageQueues w !! clientId))
            end).
Proof. apply sendToClient_result. Qed.

(** X4. When a write to a push handle throws, [sendToClient] returns
    [false] having removed the client as [removeClient] does (registry
    entry deleted, deletion of the queue scheduled for 60 seconds later);
    the error is reported unless it is an ordinary disconnection; the
    message is not put on the client's queue, although the queue is still
    there; and sending the same message again at once succeeds exactly when
    the client has a queue, the message then being queued. *)
Theorem sendToClient_write_failure (w : World) (clientId eventType : string) (data : json)
    (r : ref) :
  Map_get clientId (clients w) = Some r →
  eval (sendToClient clientId eventType data) w = Normal false →
  let w' := exec (sendToClient clientId eventType data) w in
  clients w' = Map_delete clientId (clients w)
  ∧ messageQueues w' = messageQueues w
  ∧ timers w' = timers w ++ [(now w + 60000, clientId)]
  ∧ (∃ err writes closes,
       trace w' = trace w ++ writes ++ sendToClient_log clientId err ++ closes
       ∧ failed_writes r eventType (message_object eventType data (now w)) err writes
       ∧ forallb closing_event closes = true)
  ∧ eval (sendToClient clientId eventType data) w'
    = Normal (bool_decide (is_Some (messageQueues w !! clientId)))
  ∧ messageQueues (exec (sendToClient clientId eventType data) w') !! clientId
    = (λ queue, queue ++ [mkQueued eventType data]) <$> messageQueues w !! clientId.
Proof.
  intros Hc Hfalse. rewrite sendToClient_result, Hc in Hfalse.
  assert (accepts_frame (deref w r) = false) as Hacc by congruence.
  destruct (sendToClient_push_fail_run clientId eventType data r w Hc Hacc)
    as (err & writes & closes & h' & E & Hw & Hcl).
  cbn zeta. unfold exec. rewrite E. cbn [snd clients messageQueues timers trace].
  do 3 (split; [done|]).
  split; [by exists err, writes, closes|].
  set (w' := mkWorld _ _ _ _ _ _).
  assert (Map_get clientId (clients w') = None) as Hgone by apply Map_get_delete_eq.
  split.
  - by rewrite sendToClient_result, Hgone.
  - destruct (messageQueues w !! clientId) as [queue|] eqn:Hq.
    + rewrite (sendToClient_queue_only_run clientId eventType data w' queue Hgone Hq).
      cbn. by rewrite lookup_insert_eq.
    + rewrite (sendToClient_unknown_run clientId eventType data w' Hgone Hq).
      cbn. by rewrite Hq.
Qed.

(** X4 in [broken_pipe_world]: the send fails, the queue stays empty, and
    the same send again is queued. *)
Lemma sendToClient_write_failure_witness :
  Map_get "c1" (clients broken_pipe_world) = Some 1%nat
  ∧ eval (sendToClient "c1" "analysis_progress" (JStr "go")) broken_pipe_world = Normal false
  ∧ messageQueues (exec (sendToClient "c1" "analysis_progress" (JStr "go")) broken_pipe_world)
    = messageQueues broken_pipe_world
  ∧ eval (sendToClient "c1" "analysis_progress" (JStr "go"))
         (exec (sendToClient "c1" "analysis_progress" (JStr "go")) broken_pipe_world)
    = Normal (bool_decide (is_Some (messageQueues broken_pipe_world !! "c1"))).
Proof.
  pose proof (sendToClient_write_failure broken_pipe_world "c1" "analysis_progress"
                (JStr "go") 1%nat eq_refl eq_refl) as (_ & Hq & _ & _ & Hretry & _).
  split; [reflexivity|]. split; [reflexivity|]. split; [exact Hq|exact Hretry].
Defined.

(** X5. A targeted send concerns one client: whatever happens to it, the
    registry entry, the queue and the pending queue deletions of every
    other id are what they were. *)
Theorem sendToClient_leaves_other_clients (w : World) (clientId other eventType : string)
    (data : json) :
  other ≠ clientId →
  let w' := exec (sendToClient clientId eventType data) w in
  Map_get other (clients w') = Map_get other (clients w)
  ∧ messageQueues w' !! other = messageQueues w !! other
  ∧ ∀ t, (t, other) ∈ timers w' ↔ (t, other) ∈ timers w.
Proof.
  intros Hne. cbn zeta. unfold exec.
  destruct (Map_get clientId (clients w)) as [r|] eqn:Hc.
  - destruct (accepts_frame (deref w r)) eqn:Hacc.
    + destruct (sendToClient_push_ok_run clientId eventType data r w Hc Hacc) as (h' & ->).
      cbn. split; [done|]. split; [|done].
      destruct (messageQueues w !! clientId); [|done]. by apply lookup_insert_ne.
    + destruct (sendToClient_push_fail_run clientId eventType data r w Hc Hacc)
        as (err & writes & closes & h' & -> & _).
      cbn. split; [by apply Map_get_delete_ne|]. split; [done|].
      intros t. rewrite elem_of_app, list_elem_of_singleton. split; [|auto].
      intros [?|[= _ ?]]; [done|by subst].
  - destruct (messageQueues w !! clientId) as [queue|] eqn:Hq.
    + rewrite (sendToClient_queue_only_run _ _ _ _ queue) by done.
      cbn. split; [done|]. split; [|done]. by apply lookup_insert_ne.
    + rewrite sendToClient_unknown_run by done. done.
Qed.

(** X5 for a send to the broken connection of c1 while c2 waits in poll
    mode. *)
Lemma sendToClient_leaves_other_clients_witness :
  "c2" ≠ "c1"
  ∧ messageQueues
      (exec (sendToClient "c1" "analysis_progress" (JStr "go"))
         (exec (addClient "c2" None) broken_pipe_world)) !! "c2"
    = messageQueues (exec (addClient "c2" None) broken_pipe_world) !! "c2".
Proof.
  assert ("c2" ≠ "c1") as Hne by discriminate.
  split; [exact Hne|].
  apply (sendToClient_leaves_other_clients (exec (addClient "c2" None) broken_pipe_world)
           "c1" "c2" "analysis_progress" (JStr "go") Hne).
Defined.

(** ** Queues *)

(** X6. A successful push to a client that has a queue evicts at most one
    message, the oldest, and only when the queue already held 1000 or more:
    the queue afterwards is the old one without its first entry (or the
    whole old one, below 1000) followed by the new message. So a queue of
    at most 1000 messages stays within 1000, and a queue that had grown
    beyond 1000 keeps its length: it is never cut back to the bound. *)
Theorem sendToClient_push_evicts_one (w : World) (clientId eventType : string) (data : json)
    (r : ref) (queue : list QueuedMessage) :
  Map_get clientId (clients w) = Some r →
  messageQueues w !! clientId = Some queue →
  eval (sendToClient clientId eventType data) w = Normal true →
  let queue' := drop (if 1000 <=? Z.of_nat (length queue) then 1 else 0) queue
                ++ [mkQueued eventType data] in
  messageQueues (exec (sendToClient clientId eventType data) w) !! clientId = Some queue'
  ∧ length queue' = (if 1000 <=? Z.of_nat (length queue) then length queue
                     else S (length queue)).
Proof.
  intros Hc Hq Htrue. rewrite sendToClient_result, Hc in Htrue.
  assert (accepts_frame (deref w r) = true) as Hacc by congruence.
  destruct (sendToClient_push_ok_run clientId eventType data r w Hc Hacc) as (h' & E).
  cbn zeta. unfold exec. rewrite E, Hq. cbn [snd messageQueues].
  rewrite lookup_insert_eq. unfold shift_over_1000. rewrite length_app. cbn [length].
  destruct (1000 <=? Z.of_nat (length queue)) eqn:Hlen.
  - apply Z.leb_le in Hlen.
    destruct (Z.ltb_spec 1000 (Z.of_nat (length queue + 1))) as [_|?]; [|lia].
    destruct queue as [|m0 queue]; [cbn in Hlen; lia|].
    split; [done|]. cbn. rewrite drop_0, length_app. cbn. lia.
  - apply Z.leb_gt in Hlen.
    destruct (Z.ltb_spec 1000 (Z.of_nat (length queue + 1))) as [?|_]; [lia|].
    rewrite drop_0. split; [done|]. rewrite length_app. cbn. lia.
Qed.

(** X6 for the first push to a freshly registered client. *)
Lemma sendToClient_push_evicts_one_witness :
  let w := exec (addClient "c1" (Some 1%nat)) (boot 0) in
  Map_get "c1" (clients w) = Some 1%nat
  ∧ messageQueues w !! "c1" = Some []
  ∧ eval (sendToClient "c1" "analysis_progress" (JStr "go")) w = Normal true
  ∧ messageQueues (exec (sendToClient "c1" "analysis_progress" (JStr "go")) w) !! "c1"
    = Some ([] ++ [mkQueued "analysis_progress" (JStr "go")]).
Proof.
  cbv zeta.
  pose proof (sendToClient_push_evicts_one (exec (addClient "c1" (Some 1%nat)) (boot 0))
                "c1" "analysis_progress" (JStr "go") 1%nat [] eq_refl eq_refl eq_refl)
    as [H _].
  split; [reflexivity|]. split; [reflexivity|]. split; [reflexivity|]. exact H.
Defined.

(** X7. Sends to an id that has a queue and no push handle lose nothing
    and keep their order, however many they are: after any run of sends the
    queue is the old queue followed by the messages sent, in the order of
    the sends, a drain returns exactly that, and nothing else of the world
    has changed (nothing is written, no timer is set). *)
Theorem sendToClient_queue_only_is_fifo (w : World) (clientId : string)
    (queue msgs : list QueuedMessage) :
  Map_get clientId (clients w) = None →
  messageQueues w !! clientId = Some queue →
  send_all clientId msgs w
  = (Normal tt, set_messageQueues <[clientId := queue ++ msgs]> w)
  ∧ eval (getPendingMessages clientId) (exec (send_all clientId msgs) w)
    = Normal (queue ++ msgs).
Proof.
  intros Hc Hq. pose proof (send_all_queue_only clientId msgs w queue Hc Hq) as E.
  split; [done|]. unfold exec, eval. rewrite E, getPendingMessages_run.
  cbn. by rewrite lookup_insert_eq.
Qed.

(** X7 for two messages sent to a poll-mode client with one waiting. *)
Lemma sendToClient_queue_only_is_fifo_witness :
  Map_get "c2" (clients waiting_world) = None
  ∧ messageQueues waiting_world !! "c2" = Some [mkQueued "analysis_progress" (JStr "go")]
  ∧ eval (getPendingMessages "c2")
         (exec (send_all "c2" [numbered 1; numbered 2]) waiting_world)
    = Normal ([mkQueued "analysis_progress" (JStr "go")] ++ [numbered 1; numbered 2]).
Proof.
  split; [reflexivity|]. split; [reflexivity|].
  apply (sendToClient_queue_only_is_fifo waiting_world "c2"
           [mkQueued "analysis_progress" (JStr "go")] [numbered 1; numbered 2]
           eq_refl eq_refl).
Defined.

(** ** Connections *)

(** X8. A long-lived connection: the handler sets the headers with
    [Connection: keep-alive], flushes them, registers the response as the
    client's push handle and only then writes the [connected] event. The
    one write it makes is that event: messages waiting in the client's
    queue are neither written nor drained. If that write throws, the
    exception leaves the handler and the client stays registered. No timer
    is set. *)
Theorem handleSSEConnection_push_registers_first (w : World) (req : Request) (res : ref)
    (clientId : string) :
  query_client_id req = Some clientId →
  clientId ≠ EmptyString →
  isShortPolling req = false →
  let w' := exec (handleSSEConnection req res) w in
  ∃ thrown,
    eval (handleSSEConnection req res) w = completion_of thrown
    ∧ trace w'
      = trace w ++ sse_header_events res "keep-alive"
          ++ [EvFlushHeaders res; EvWrite res (connected_frame clientId) thrown]
    ∧ clients w' = Map_set clientId res (clients w)
    ∧ Map_get clientId (clients w') = Some res
    ∧ messageQueues w' !! clientId = Some (default [] (messageQueues w !! clientId))
    ∧ (∀ other, other ≠ clientId → messageQueues w' !! other = messageQueues w !! other)
    ∧ timers w' = timers w.
Proof.
  intros Hid Hne Hpoll.
  destruct (handleSSEConnection_push_run w req res clientId Hid Hne Hpoll)
    as (thrown & h' & E).
  cbn zeta. unfold exec, eval. rewrite E. cbn. exists thrown.
  do 3 (split; [done|]). split; [apply Map_get_set_eq|].
  split.
  { destruct (messageQueues w !! clientId) eqn:Hq; [done|]. apply lookup_insert_eq. }
  split; [|done].
  intros other Ho. destruct (messageQueues w !! clientId); [done|]. by apply lookup_insert_ne.
Qed.

(** X8 for the first connection of c1 to a freshly started server. *)
Lemma handleSSEConnection_push_registers_first_witness :
  let req := mkRequest (Some "c1") None None None in
  query_client_id req = Some "c1"
  ∧ "c1" ≠ EmptyString
  ∧ isShortPolling req = false
  ∧ ∃ thrown,
      eval (handleSSEConnection req 1%nat) (boot 0) = completion_of thrown
      ∧ trace (exec (handleSSEConnection req 1%nat) (boot 0))
        = trace (boot 0) ++ sse_header_events 1%nat "keep-alive"
            ++ [EvFlushHeaders 1%nat; EvWrite 1%nat (connected_frame "c1") thrown].
Proof.
  cbv zeta. assert ("c1" ≠ EmptyString) as Hne by discriminate.
  destruct (handleSSEConnection_push_registers_first (boot 0)
              (mkRequest (Some "c1") None None None) 1%nat "c1" eq_refl Hne eq_refl)
    as (thrown & Hev & Htr & _).
  split; [reflexivity|]. split; [exact Hne|]. split; [reflexivity|].
  exists thrown. split; [exact Hev|exact Htr].
Defined.

(** X9. A short poll never touches the registry: the client gets no push
    handle and is not counted by [getClientCount], whether or not it had a
    handle before; no timer is set or cancelled; the id's queue is left
    empty (created if the id had none) and no other queue changes. *)
Theorem handleSSEConnection_poll_leaves_registry (w : World) (req : Request) (res : ref)
    (clientId : string) :
  query_client_id req = Some clientId →
  clientId ≠ EmptyString →
  isShortPolling req = true →
  let w' := exec (handleSSEConnection req res) w in
  clients w' = clients w
  ∧ eval getClientCount w' = eval getClientCount w
  ∧ timers w' = timers w
  ∧ messageQueues w' !! clientId = Some []
  ∧ ∀ other, other ≠ clientId → messageQueues w' !! other = messageQueues w !! other.
Proof.
  intros Hid Hne Hpoll.
  destruct (handleSSEConnection_poll_run w req res clientId Hid Hne Hpoll)
    as (body & thrown & rest & c & h' & _ & E).
  cbn zeta. unfold exec, eval, getClientCount, gets. rewrite E. cbn.
  do 3 (split; [done|]). split; [apply lookup_insert_eq|].
  intros other Ho. by apply lookup_insert_ne.
Qed.

(** X9 for a first poll of c2 at a freshly started server. *)
Lemma handleSSEConnection_poll_leaves_registry_witness :
  let req := mkRequest (Some "c2") (Some "true") None None in
  query_client_id req = Some "c2"
  ∧ "c2" ≠ EmptyString
  ∧ isShortPolling req = true
  ∧ clients (exec (handleSSEConnection req 9%nat) (boot 0)) = clients (boot 0)
  ∧ messageQueues (exec (handleSSEConnection req 9%nat) (boot 0)) !! "c2" = Some [].
Proof.
  cbv zeta. assert ("c2" ≠ EmptyString) as Hne by discriminate.
  destruct (handleSSEConnection_poll_leaves_registry (boot 0)
              (mkRequest (Some "c2") (Some "true") None None) 9%nat "c2" eq_refl Hne eq_refl)
    as (Hc & _ & _ & Hq & _).
  split; [reflexivity|]. split; [exact Hne|]. split; [reflexivity|].
  split; [exact Hc|exact Hq].
Defined.




(** ** Disconnection *)

(** X11. [removeClient] can be called by every listener of a connection:
    it never throws, also when [end] does; it ends the response only when
    the response is writable and not destroyed, and reports an error of
    [end] unless it is an ordinary disconnection; and a second call for the
    same id finds no registry entry and changes nothing, so the response is
    not ended again and no second queue deletion is scheduled. *)
Theorem removeClient_ends_response_once (w : World) (clientId : string) (r : ref) :
  Map_get clientId (clients w) = Some r →
  let w' := exec (removeClient clientId) w in
  eval (removeClient clientId) w = Normal tt
  ∧ trace w'
    = trace w
      ++ (if writable (deref w r) && negb (destroyed (deref w r))
          then match (next_call (deref w r)).1 with
               | None => [EvEnd r None]
               | Some err =>
                   EvEnd r (Some err)
                   :: (if normal_disconnect err then []
                       else [EvError ("Error closing SSE connection for " +:+ clientId +:+ ":")
                               err])
               end
          else [])
  ∧ removeClient clientId w' = (Normal tt, w').
Proof.
  intros H. cbn zeta.
  assert (Map_get clientId (clients (exec (removeClient clientId) w)) = None) as Hgone.
  { destruct (removeClient_present_run clientId r w H) as (h' & evs & E & _).
    unfold exec. rewrite E. apply Map_get_delete_eq. }
  split; [apply removeClient_normal|]. split; [|by apply removeClient_absent_run].
  clear Hgone. unfold exec, removeClient. run_M. rewrite H.
  destruct (writable (deref w r) && negb (destroyed (deref w r))).
  - unfold Response_end. destruct (next_call (deref w r)) as [[e|] o]; run_M; [|done].
    unfold normal_disconnect.
    destruct (code_is e "ECONNRESET"), (code_is e "EPIPE"), (message_is e "aborted");
      cbn; by rewrite <- ?app_assoc.
  - cbn. by rewrite app_nil_r.
Qed.

(** X11 for a connected client whose response is open. *)
Lemma removeClient_ends_response_once_witness :
  let w := exec (addClient "c1" (Some 1%nat)) (boot 0) in
  Map_get "c1" (clients w) = Some 1%nat
  ∧ trace (exec (removeClient "c1") w) = trace w ++ [EvEnd 1%nat None]
  ∧ removeClient "c1" (exec (removeClient "c1") w) = (Normal tt, exec (removeClient "c1") w).
Proof.
  cbv zeta.
  destruct (removeClient_ends_response_once (exec (addClient "c1" (Some 1%nat)) (boot 0))
              "c1" 1%nat eq_refl) as (_ & Htr & Hagain).
  split; [reflexivity|]. split; [exact Htr|exact Hagain].
Defined.

(** * Stock codes *)

(** ** Characters *)

Ltac by_ascii c := destruct c as [[] [] [] [] [] [] [] []]; try reflexivity; try discriminate.

Lemma upper_char_idem c : upper_char (upper_char c) = upper_char c.
Proof. by_ascii c. Qed.

Lemma upper_char_whitespace c : is_whitespace (upper_char c) = is_whitespace c.
Proof. by_ascii c. Qed.

Lemma is_digit_plain c : is_digit c = true → is_whitespace c = false ∧ upper_char c = c.
Proof. by_ascii c; by intros. Qed.

Lemma is_upper_plain c : is_upper c = true → is_whitespace c = false ∧ upper_char c = c.
Proof. by_ascii c; by intros. Qed.

Lemma is_digit_not_upper c : is_digit c = true → is_upper c = false.
Proof. by_ascii c. Qed.

Lemma is_digit_not_H c : is_digit c = true → c ≠ "H"%char.
Proof. intros H ->. discriminate. Qed.

(** ** [trim] and [toUpperCase] *)

Lemma trimStart_idem s : trimStart (trimStart s) = trimStart s.
Proof.
  induction s as [|c s IH]; [done|]. cbn.
  destruct (is_whitespace c) eqn:E; [done|]. cbn. by rewrite E.
Qed.

Lemma trimEnd_idem s : trimEnd (trimEnd s) = trimEnd s.
Proof.
  induction s as [|c s IH]; [done|]. cbn.
  destruct (trimEnd s) as [|d t] eqn:E.
  - destruct (is_whitespace c) eqn:Ec; [done|]. cbn. by rewrite Ec.
  - change (trimEnd (String c (String d t))) with
      (match trimEnd (String d t) with
       | EmptyString => if is_whitespace c then EmptyString else String c EmptyString
       | kept => String c kept
       end).
    by rewrite IH.
Qed.

Lemma trimEnd_head c s :
  is_whitespace c = false → ∃ t, trimEnd (String c s) = String c t.
Proof.
  intros Ec. cbn. destruct (trimEnd s); [rewrite Ec|]; eauto.
Qed.

Lemma trimStart_trimEnd_trimStart s :
  trimStart (trimEnd (trimStart s)) = trimEnd (trimStart s).
Proof.
  induction s as [|c s IH]; [done|]. cbn [trimStart].
  destruct (is_whitespace c) eqn:Ec; [done|].
  destruct (trimEnd_head c s Ec) as [t ->]. cbn. by rewrite Ec.
Qed.

Lemma trim_idem s : trim (trim s) = trim s.
Proof. unfold trim. by rewrite trimStart_trimEnd_trimStart, trimEnd_idem. Qed.

Lemma toUpperCase_idem s : toUpperCase (toUpperCase s) = toUpperCase s.
Proof. induction s as [|c s IH]; [done|]. cbn. by rewrite upper_char_idem, IH. Qed.

Lemma trimStart_toUpperCase s : trimStart (toUpperCase s) = toUpperCase (trimStart s).
Proof.
  induction s as [|c s IH]; [done|]. cbn. rewrite upper_char_whitespace.
  by destruct (is_whitespace c).
Qed.

Lemma trimEnd_toUpperCase s : trimEnd (toUpperCase s) = toUpperCase (trimEnd s).
Proof.
  induction s as [|c s IH]; [done|]. cbn. rewrite IH, upper_char_whitespace.
  destruct (trimEnd s); cbn; [by destruct (is_whitespace c)|done].
Qed.

Lemma trim_toUpperCase s : trim (toUpperCase s) = toUpperCase (trim s).
Proof. unfold trim. by rewrite trimStart_toUpperCase, trimEnd_toUpperCase. Qed.

(** Trimming and upper-casing what was trimmed and upper-cased changes
    nothing. *)
Lemma normal_form_idem s :
  toUpperCase (trim (toUpperCase (trim s))) = toUpperCase (trim s).
Proof. by rewrite trim_toUpperCase, trim_idem, toUpperCase_idem. Qed.

Lemma all_chars_impl (p q : ascii → bool) s :
  (∀ c, p c = true → q c = true) → all_chars p s = true → all_chars q s = true.
Proof.
  intros Hpq. induction s as [|c s IH]; [done|]. cbn.
  intros [Hc Hs]%andb_prop. by rewrite (Hpq c Hc), IH.
Qed.

(** A string without white space and lower-case letters is its own trimmed
    upper-case form. *)
Lemma plain_normal_form s :
  all_chars (λ c, negb (is_whitespace c) && bool_decide (upper_char c = c)) s = true →
  toUpperCase (trim s) = s.
Proof.
  intros H. assert (trim s = s) as ->.
  { unfold trim. assert (trimStart s = s) as ->.
    { destruct s as [|c s]; [done|]. cbn in *.
      apply andb_prop in H as [[Hw _]%andb_prop _]. by destruct (is_whitespace c). }
    induction s as [|c s IH]; [done|]. cbn in *.
    apply andb_prop in H as [[Hw _]%andb_prop Hs]. rewrite (IH Hs).
    destruct s; [by destruct (is_whitespace c)|done]. }
  induction s as [|c s IH]; [done|]. cbn in *.
  apply andb_prop in H as [[_ Hu]%andb_prop Hs]. apply bool_decide_eq_true in Hu.
  by rewrite Hu, (IH Hs).
Qed.

Lemma digits_normal_form s : all_chars is_digit s = true → toUpperCase (trim s) = s.
Proof.
  intros H. apply plain_normal_form. revert H. apply all_chars_impl.
  intros c [Hw Hu]%is_digit_plain. rewrite Hw. cbn. by apply bool_decide_eq_true.
Qed.

Lemma letters_normal_form s : all_chars is_upper s = true → toUpperCase (trim s) = s.
Proof.
  intros H. apply plain_normal_form. revert H. apply all_chars_impl.
  intros c [Hw Hu]%is_upper_plain. rewrite Hw. cbn. by apply bool_decide_eq_true.
Qed.

(** ** The formats of a stock code *)

Lemma digits_exactly_inv n code :
  digits_exactly n code = true → String.length code = n ∧ all_chars is_digit code = true.
Proof. unfold digits_exactly. intros [H1 H2]%andb_prop. by apply Nat.eqb_eq in H1. Qed.

Lemma digits_exactly_intro n code :
  String.length code = n → all_chars is_digit code = true → digits_exactly n code = true.
Proof. unfold digits_exactly. intros <- ->. by rewrite Nat.eqb_refl. Qed.

Lemma digits_exactly_other n m code :
  digits_exactly n code = true → n ≠ m → digits_exactly m code = false.
Proof.
  intros [Hn _]%digits_exactly_inv Hne. unfold digits_exactly.
  apply andb_false_intro1, Nat.eqb_neq. congruence.
Qed.

Lemma hk_digits_inv code :
  hk_digits code = true →
  ∃ rest, code = String "H" (String "K" rest) ∧ digits_exactly 5 rest = true.
Proof.
  destruct code as [|a [|b rest]]; [done| |].
  - by_ascii a.
  - by_ascii a. by_ascii b. intros H. by exists rest.
Qed.

Lemma digits_not_hk n code : digits_exactly n code = true → hk_digits code = false.
Proof.
  intros [_ Hd]%digits_exactly_inv. destruct (hk_digits code) eqn:E; [|done].
  apply hk_digits_inv in E as (rest & -> & _). discriminate.
Qed.

Lemma hk_not_digits n code : hk_digits code = true → digits_exactly n code = false.
Proof.
  intros H. destruct (digits_exactly n code) eqn:E; [|done].
  apply (digits_not_hk n) in E. congruence.
Qed.

Lemma prefix_HK_digits code :
  all_chars is_digit code = true → String.prefix "HK" code = false.
Proof.
  destruct code as [|c code]; [done|]. intros [Hc _]%andb_prop.
  revert Hc. by_ascii c.
Qed.

Lemma prefix_HK_letters code :
  String.prefix "HK" code = true → ∃ rest, code = String "H" (String "K" rest).
Proof.
  destruct code as [|a [|b rest]]; [done| |].
  - by_ascii a.
  - by_ascii a. by_ascii b. eauto.
Qed.

Lemma prefix_HK_intro rest : String.prefix "HK" (String "H" (String "K" rest)) = true.
Proof. by destruct rest. Qed.

Lemma substring_all s : String.substring 0 (String.length s) s = s.
Proof. induction s as [|c s IH]; [done|]. cbn. by rewrite IH. Qed.

Lemma letters_1_5_inv code :
  letters_1_5 code = true →
  (1 ≤ String.length code ≤ 5)%nat ∧ all_chars is_upper code = true.
Proof.
  unfold letters_1_5. intros [[H1 H2]%andb_prop H3]%andb_prop.
  apply Nat.leb_le in H1, H2. done.
Qed.

Lemma letters_not_digits n code : letters_1_5 code = true → digits_exactly n code = false.
Proof.
  intros [[Hl _] Hu]%letters_1_5_inv. destruct (digits_exactly n code) eqn:E; [|done].
  apply digits_exactly_inv in E as [_ Hd].
  destruct code as [|c code]; [cbn in Hl; lia|]. cbn in *.
  apply andb_prop in Hd as [Hd _]. apply andb_prop in Hu as [Hu _].
  apply is_digit_not_upper in Hd. congruence.
Qed.

Lemma letters_not_hk code : letters_1_5 code = true → hk_digits code = false.
Proof.
  intros [[_ Hl] Hu]%letters_1_5_inv. destruct (hk_digits code) eqn:E; [|done].
  apply hk_digits_inv in E as (rest & -> & [Hr _]%digits_exactly_inv).
  cbn in Hl. lia.
Qed.

(** What [detectMarket] answers, by the format of the code. *)
Lemma detectMarket_digits_6 s :
  digits_exactly 6 (toUpperCase (trim s)) = true → detectMarket s = A_STOCK.
Proof. unfold detectMarket. by intros ->. Qed.

Lemma detectMarket_digits_5 s :
  digits_exactly 5 (toUpperCase (trim s)) = true → detectMarket s = HK_STOCK.
Proof.
  unfold detectMarket. intros H. by rewrite (digits_exactly_other 5 6 _ H), H.
Qed.

Lemma detectMarket_hk s :
  hk_digits (toUpperCase (trim s)) = true → detectMarket s = HK_STOCK.
Proof.
  unfold detectMarket. intros H. rewrite (hk_not_digits 6 _ H), H.
  by rewrite orb_true_r.
Qed.

Lemma detectMarket_letters s :
  letters_1_5 (toUpperCase (trim s)) = true → detectMarket s = US_STOCK.
Proof.
  unfold detectMarket. intros H.
  by rewrite (letters_not_digits 6 _ H), (letters_not_digits 5 _ H), (letters_not_hk _ H), H.
Qed.

Lemma detectMarket_normal_form s : detectMarket (toUpperCase (trim s)) = detectMarket s.
Proof. unfold detectMarket. by rewrite normal_form_idem. Qed.

Lemma validateStockCode_shape s :
  validateStockCode s =
    (let code := toUpperCase (trim s) in
     digits_exactly 6 code || digits_exactly 5 code || hk_digits code || letters_1_5 code).
Proof.
  unfold validateStockCode. case_bool_decide as Hs; [by subst|]. cbn zeta.
  rewrite detectMarket_normal_form. unfold detectMarket.
  destruct (digits_exactly 6 _) eqn:E6; cbn; [done|].
  destruct (digits_exactly 5 _ || hk_digits _) eqn:E5; cbn; [done|].
  by destruct (letters_1_5 _) eqn:EU.
Qed.

Lemma validateStockCode_cases s :
  validateStockCode s = true →
  let code := toUpperCase (trim s) in
  digits_exactly 6 code = true ∨ digits_exactly 5 code = true
  ∨ hk_digits code = true ∨ letters_1_5 code = true.
Proof.
  rewrite validateStockCode_shape. cbn zeta.
  intros [[[H|H]%orb_prop|H]%orb_prop|H]%orb_prop; auto.
Qed.

(** ** [normalizeStockCode] on the codes that are valid *)

Lemma normalizeStockCode_digits s market :
  all_chars is_digit (toUpperCase (trim s)) = true →
  (5 ≤ String.length (toUpperCase (trim s)))%nat →
  normalizeStockCode s market = toUpperCase (trim s).
Proof.
  intros Hd Hl. unfold normalizeStockCode. cbn zeta.
  destruct (match market with Some m => m | None => _ end); try done.
  rewrite (prefix_HK_digits _ Hd).
  by destruct (Nat.ltb_spec (String.length (toUpperCase (trim s))) 5); [lia|].
Qed.

Lemma normalizeStockCode_hk s rest :
  toUpperCase (trim s) = String "H" (String "K" rest) →
  digits_exactly 5 rest = true →
  normalizeStockCode s None = rest.
Proof.
  intros Hc Hr. unfold normalizeStockCode. cbn zeta.
  rewrite detectMarket_normal_form, (detectMarket_hk s); [|by rewrite Hc].
  rewrite Hc.
  rewrite prefix_HK_intro.
  change (String.substring 2 (String.length (String "H" (String "K" rest)) - 2)
            (String "H" (String "K" rest)))
    with (String.substring 0 (String.length rest - 0) rest).
  rewrite Nat.sub_0_r, substring_all.
  apply digits_exactly_inv in Hr as [-> _]. done.
Qed.

Lemma normalizeStockCode_letters s :
  letters_1_5 (toUpperCase (trim s)) = true →
  normalizeStockCode s None = toUpperCase (trim s).
Proof.
  intros H. unfold normalizeStockCode. cbn zeta.
  by rewrite detectMarket_normal_form, (detectMarket_letters s H).
Qed.

(** The normal form of a valid code: the code trimmed and in upper case,
    without the [HK] prefix. *)
Lemma normalizeStockCode_valid s :
  validateStockCode s = true →
  let n := normalizeStockCode s None in
  toUpperCase (trim n) = n
  ∧ (let code := toUpperCase (trim s) in
     digits_exactly 6 code = true ∧ n = code
     ∨ digits_exactly 5 code = true ∧ n = code
     ∨ hk_digits code = true ∧ code = String "H" (String "K" n) ∧ digits_exactly 5 n = true
     ∨ letters_1_5 code = true ∧ n = code).
Proof.
  intros Hv. apply validateStockCode_cases in Hv. cbn zeta in *.
  destruct Hv as [H|[H|[H|H]]].
  - pose proof (digits_exactly_inv _ _ H) as [Hl Hd].
    rewrite (normalizeStockCode_digits s None Hd) by lia.
    split; [by apply digits_normal_form|auto].
  - pose proof (digits_exactly_inv _ _ H) as [Hl Hd].
    rewrite (normalizeStockCode_digits s None Hd) by lia.
    split; [by apply digits_normal_form|auto].
  - pose proof (hk_digits_inv _ H) as (rest & Hc & Hr).
    rewrite (normalizeStockCode_hk s rest Hc Hr).
    split; [apply digits_normal_form; by apply digits_exactly_inv in Hr as [_ ?]|].
    right; right; left. by rewrite <- Hc.
  - rewrite (normalizeStockCode_letters s H).
    split; [|auto 6]. apply letters_normal_form. by apply letters_1_5_inv in H as [_ ?].
Qed.

Lemma append_length (a b : string) :
  String.length (a +:+ b) = (String.length a + String.length b)%nat.
Proof.
  induction a as [|ch a IH]; [done|].
  change (S (String.length (a +:+ b)) = S (String.length a + String.length b)).
  by rewrite IH.
Qed.

Lemma all_chars_append p (a b : string) :
  all_chars p (a +:+ b) = all_chars p a && all_chars p b.
Proof.
  induction a as [|ch a IH]; [done|].
  change (p ch && all_chars p (a +:+ b) = p ch && all_chars p a && all_chars p b).
  by rewrite IH, andb_assoc.
Qed.

Lemma zeros_length n :
  String.length (String.string_of_list_ascii (replicate n "0"%char)) = n.
Proof. induction n as [|n IH]; [done|]. cbn. by rewrite IH. Qed.

Lemma zeros_digits n :
  all_chars is_digit (String.string_of_list_ascii (replicate n "0"%char)) = true.
Proof. induction n as [|n IH]; [done|]. cbn. by rewrite IH. Qed.

Lemma normalizeStockCode_normal_form s market :
  normalizeStockCode (toUpperCase (trim s)) market = normalizeStockCode s market.
Proof. unfold normalizeStockCode. by rewrite normal_form_idem. Qed.

Lemma validateStockCode_normal_form s :
  validateStockCode (toUpperCase (trim s)) = validateStockCode s.
Proof. rewrite !validateStockCode_shape. cbn zeta. by rewrite normal_form_idem. Qed.

Lemma detectMarket_HK_STOCK_inv s :
  detectMarket s = HK_STOCK →
  digits_exactly 5 (toUpperCase (trim s)) = true ∨ hk_digits (toUpperCase (trim s)) = true.
Proof.
  unfold detectMarket. destruct (digits_exactly 6 _); [done|].
  destruct (digits_exactly 5 _); [auto|]. destruct (hk_digits _); [auto|].
  cbn. by destruct (letters_1_5 _).
Qed.

Lemma normalizeStockCode_HK_STOCK s :
  detectMarket s = HK_STOCK → digits_exactly 5 (normalizeStockCode s None) = true.
Proof.
  intros [H|H]%detectMarket_HK_STOCK_inv.
  - pose proof (digits_exactly_inv _ _ H) as [Hl Hd].
    by rewrite (normalizeStockCode_digits s None Hd) by lia.
  - pose proof (hk_digits_inv _ H) as (rest & Hc & Hr).
    by rewrite (normalizeStockCode_hk s rest Hc Hr).
Qed.

Lemma normalizeStockCode_other s :
  detectMarket s ≠ HK_STOCK → normalizeStockCode s None = toUpperCase (trim s).
Proof.
  intros H. unfold normalizeStockCode. cbn zeta. rewrite detectMarket_normal_form.
  by destruct (detectMarket s).
Qed.

Lemma normalizeStockCode_idem s :
  normalizeStockCode (normalizeStockCode s None) None = normalizeStockCode s None.
Proof.
  assert (detectMarket s = HK_STOCK ∨ detectMarket s ≠ HK_STOCK) as [H|H]
    by (destruct (detectMarket s); auto).
  - pose proof (normalizeStockCode_HK_STOCK s H) as H5.
    pose proof (digits_exactly_inv _ _ H5) as [Hl Hd].
    pose proof (digits_normal_form _ Hd) as Hn.
    rewrite (normalizeStockCode_digits (normalizeStockCode s None) None); rewrite Hn; [done..|lia].
  - rewrite (normalizeStockCode_other s H), normalizeStockCode_normal_form.
    by apply normalizeStockCode_other.
Qed.

Lemma to_int32_range z : -2147483648 ≤ to_int32 z < 2147483648.
Proof. unfold to_int32. pose proof (Z.mod_pos_bound (z + 2147483648) 4294967296). lia. Qed.

Lemma to_int32_small z : -2147483648 ≤ z < 2147483648 → to_int32 z = z.
Proof. intros H. unfold to_int32. rewrite Z.mod_small; lia. Qed.

Lemma to_int32_eqm a b :
  (a mod 4294967296 = b mod 4294967296) → to_int32 a = to_int32 b.
Proof.
  intros H. unfold to_int32.
  rewrite (Z.add_mod a), (Z.add_mod b), H by lia. done.
Qed.

Lemma to_int32_mod a : (to_int32 a) mod 4294967296 = a mod 4294967296.
Proof.
  unfold to_int32.
  rewrite <- (Zminus_mod_idemp_l _ 2147483648), Z.mod_mod by lia.
  rewrite Zminus_mod_idemp_l. f_equal. lia.
Qed.

Lemma hash_step_polynomial h c :
  hash_step (to_int32 h) c = to_int32 (31 * h + c).
Proof.
  unfold hash_step. rewrite Z.land_diag.
  rewrite (to_int32_small (to_int32 h)) by apply to_int32_range.
  rewrite Z.shiftl_mul_pow2 by lia.
  apply to_int32_eqm.
  rewrite <- Zplus_mod_idemp_l, <- Zminus_mod_idemp_l, to_int32_mod.
  rewrite <- (Zminus_mod_idemp_r _ (to_int32 h)), to_int32_mod.
  rewrite <- (Zmult_mod_idemp_l (to_int32 h)), to_int32_mod.
  rewrite Zmult_mod_idemp_l, Zminus_mod_idemp_r, Zminus_mod_idemp_l, Zplus_mod_idemp_l.
  f_equal. change (2 ^ 5) with 32. lia.
Qed.

Lemma hash_of_polynomial_from h cs :
  foldl hash_step (to_int32 h) cs = to_int32 (foldl (λ h c, 31 * h + c) h cs).
Proof.
  revert h. induction cs as [|c cs IH]; intros h; [done|].
  cbn [foldl]. by rewrite hash_step_polynomial, IH.
Qed.

Lemma rem_abs_range z m : 0 < m → 0 ≤ Z.rem (Z.abs z) m < m.
Proof. intros Hm. apply Z.rem_bound_pos; lia. Qed.

(** * Properties of the stock-code functions *)

(** X12. [validateStockCode] accepts exactly the codes that, trimmed and
    put in upper case, are six digits, five digits, [HK] followed by five
    digits, or one to five letters; the empty string and a string of white
    space are rejected. So validity does not depend on the case of the
    letters or on white space around the code. *)
Theorem validateStockCode_accepts_four_formats (stockCode : string) :
  ascii_only stockCode = true →
  validateStockCode stockCode
  = (let code := toUpperCase (trim stockCode) in
     digits_exactly 6 code || digits_exactly 5 code || hk_digits code || letters_1_5 code).
Proof. intros _. apply validateStockCode_shape. Qed.

(** X12 for a Hong Kong code in lower case with spaces around it. *)
Lemma validateStockCode_accepts_four_formats_witness :
  ascii_only " hk00700 " = true
  ∧ validateStockCode " hk00700 "
    = (let code := toUpperCase (trim " hk00700 ") in
       digits_exactly 6 code || digits_exactly 5 code || hk_digits code || letters_1_5 code).
Proof.
  split; [reflexivity|].
  exact (validateStockCode_accepts_four_formats " hk00700 " eq_refl).
Defined.

(** X13. [detectMarket] has no answer for "unknown": every code that
    [validateStockCode] rejects, the empty string included, is reported as
    [A_STOCK]. *)
Theorem detectMarket_invalid_is_A_STOCK (stockCode : string) :
  ascii_only stockCode = true →
  validateStockCode stockCode = false →
  detectMarket stockCode = A_STOCK.
Proof.
  intros _. rewrite validateStockCode_shape. cbn zeta. unfold detectMarket.
  intros [[[H6 H5]%orb_false_elim Hhk]%orb_false_elim Hus]%orb_false_elim.
  by rewrite H6, H5, Hhk, Hus.
Qed.

(** X13 for a seven-letter word. *)
Lemma detectMarket_invalid_is_A_STOCK_witness :
  ascii_only "garbage" = true
  ∧ validateStockCode "garbage" = false
  ∧ detectMarket "garbage" = A_STOCK.
Proof.
  split; [reflexivity|]. split; [reflexivity|].
  exact (detectMarket_invalid_is_A_STOCK "garbage" eq_refl eq_refl).
Defined.

(** X14. [normalizeStockCode] without a market is idempotent: normalizing
    a normalized code gives the same code, for valid and invalid codes
    alike. *)
Theorem normalizeStockCode_idempotent (stockCode : string) :
  ascii_only stockCode = true →
  normalizeStockCode (normalizeStockCode stockCode None) None
  = normalizeStockCode stockCode None.
Proof. intros _. apply normalizeStockCode_idem. Qed.

(** X14 for a prefixed Hong Kong code. *)
Lemma normalizeStockCode_idempotent_witness :
  ascii_only " hk00700 " = true
  ∧ normalizeStockCode (normalizeStockCode " hk00700 " None) None
    = normalizeStockCode " hk00700 " None.
Proof.
  split; [reflexivity|].
  exact (normalizeStockCode_idempotent " hk00700 " eq_refl).
Defined.

Lemma normalizeStockCode_detected s :
  normalizeStockCode s (Some (detectMarket s)) = normalizeStockCode s None.
Proof. unfold normalizeStockCode. cbn zeta. by rewrite detectMarket_normal_form. Qed.

Lemma normalizeStockCode_None_valid s :
  validateStockCode s = true →
  validateStockCode (normalizeStockCode s None) = true
  ∧ detectMarket (normalizeStockCode s None) = detectMarket s.
Proof.
  intros Hv.
  destruct (normalizeStockCode_valid s Hv) as [Hn Hcases]. cbn zeta in Hcases.
  split.
  - rewrite validateStockCode_shape. cbn zeta. rewrite Hn.
    destruct Hcases as [[H ->]|[[H ->]|[(_ & _ & H)|[H ->]]]]; rewrite H;
      by rewrite ?orb_true_r.
  - destruct Hcases as [[H E]|[[H E]|[(H & E & H5)|[H E]]]].
    + rewrite (detectMarket_digits_6 s H). apply detectMarket_digits_6.
      by rewrite Hn, E.
    + rewrite (detectMarket_digits_5 s H). apply detectMarket_digits_5.
      by rewrite Hn, E.
    + rewrite (detectMarket_hk s H). apply detectMarket_digits_5. by rewrite Hn.
    + rewrite (detectMarket_letters s H). apply detectMarket_letters.
      by rewrite Hn, E.
Qed.

(** A market the code does not belong to: AAPL, a valid code, normalized as
    a Hong Kong code is padded to 0AAPL, which is not a valid code. *)
Example normalizeStockCode_foreign_market :
  validateStockCode "AAPL" = true
  ∧ normalizeStockCode "AAPL" (Some HK_STOCK) = "0AAPL"
  ∧ validateStockCode "0AAPL" = false.
Proof. by vm_compute. Qed.

(** X15. The controllers normalize with
    [(target_market as Market) || detectMarket(stock_code)], here
    [default (detectMarket stockCode) target_market]. For a valid code the
    result is a valid code of the same detected market whenever the market
    asked for is not [HK_STOCK] for a code of another market (that case is
    [normalizeStockCode_foreign_market]): with no [target_market], or with
    the detected market as [target_market], it is the code that
    [normalizeStockCode] gives without a market; with another market that
    is not [HK_STOCK] it is the code trimmed and in upper case. *)
Theorem normalizeStockCode_keeps_valid (stockCode : string) (target_market : option Market) :
  ascii_only stockCode = true →
  validateStockCode stockCode = true →
  (target_market = Some HK_STOCK → detectMarket stockCode = HK_STOCK) →
  let market := default (detectMarket stockCode) target_market in
  let normalized := normalizeStockCode stockCode (Some market) in
  validateStockCode normalized = true
  ∧ detectMarket normalized = detectMarket stockCode
  ∧ (market = detectMarket stockCode → normalized = normalizeStockCode stockCode None)
  ∧ (market ≠ HK_STOCK → normalized = toUpperCase (trim stockCode)).
Proof.
  intros _ Hv Hhk. cbn zeta.
  destruct (normalizeStockCode_None_valid stockCode Hv) as [Hvn Hmn].
  assert (∀ m, m ≠ HK_STOCK →
            normalizeStockCode stockCode (Some m) = toUpperCase (trim stockCode)) as Hplain
    by (intros m Hm; unfold normalizeStockCode; by destruct m).
  assert (default (detectMarket stockCode) target_market = detectMarket stockCode
          ∨ default (detectMarket stockCode) target_market ≠ HK_STOCK) as [Hm|Hm].
  { destruct target_market as [[| |]|]; cbn; [by right|left|by right|by left].
    symmetry. by apply Hhk. }
  - rewrite Hm, normalizeStockCode_detected.
    split; [done|]. split; [done|]. split; [done|].
    intros Hne. by apply normalizeStockCode_other.
  - rewrite (Hplain _ Hm), validateStockCode_normal_form, detectMarket_normal_form.
    split; [done|]. split; [done|]. split; [|done].
    intros E. symmetry. apply normalizeStockCode_other. by rewrite <- E.
Qed.

(** X15 for an American code in lower case sent with its market. *)
Lemma normalizeStockCode_keeps_valid_witness :
  ascii_only " aapl " = true
  ∧ validateStockCode " aapl " = true
  ∧ (Some US_STOCK = Some HK_STOCK → detectMarket " aapl " = HK_STOCK)
  ∧ validateStockCode (normalizeStockCode " aapl " (Some US_STOCK)) = true
  ∧ detectMarket (normalizeStockCode " aapl " (Some US_STOCK)) = detectMarket " aapl ".
Proof.
  assert (Some US_STOCK = Some HK_STOCK → detectMarket " aapl " = HK_STOCK) as Hhk
    by discriminate.
  destruct (normalizeStockCode_keeps_valid " aapl " (Some US_STOCK) eq_refl eq_refl Hhk)
    as (Hv & Hm & _).
  split; [reflexivity|]. split; [reflexivity|]. split; [exact Hhk|].
  split; [exact Hv|exact Hm].
Defined.

(** X16. A code that [detectMarket] reports as [HK_STOCK] normalizes to
    exactly five digits: the [HK] prefix, if any, is gone. *)
Theorem normalizeStockCode_HK_STOCK_five_digits (stockCode : string) :
  ascii_only stockCode = true →
  detectMarket stockCode = HK_STOCK →
  digits_exactly 5 (normalizeStockCode stockCode None) = true
  ∧ normalizeStockCode stockCode (Some HK_STOCK) = normalizeStockCode stockCode None.
Proof.
  intros _ H. split; [by apply normalizeStockCode_HK_STOCK|].
  unfold normalizeStockCode. cbn zeta. by rewrite detectMarket_normal_form, H.
Qed.

(** X16 for a prefixed Hong Kong code. *)
Lemma normalizeStockCode_HK_STOCK_five_digits_witness :
  ascii_only "hk00700" = true
  ∧ detectMarket "hk00700" = HK_STOCK
  ∧ digits_exactly 5 (normalizeStockCode "hk00700" None) = true.
Proof.
  split; [reflexivity|]. split; [reflexivity|].
  apply (normalizeStockCode_HK_STOCK_five_digits "hk00700" eq_refl eq_refl).
Defined.

(** X17. With the market given as [HK_STOCK], a code of at most five
    digits is padded with zeros on the left to five digits; the empty code
    becomes [00000]. *)
Theorem normalizeStockCode_pads_short_HK_code (stockCode : string) :
  ascii_only stockCode = true →
  all_chars is_digit (toUpperCase (trim stockCode)) = true →
  (String.length (toUpperCase (trim stockCode)) ≤ 5)%nat →
  normalizeStockCode stockCode (Some HK_STOCK)
  = String.string_of_list_ascii
      (replicate (5 - String.length (toUpperCase (trim stockCode))) "0"%char)
    +:+ toUpperCase (trim stockCode)
  ∧ digits_exactly 5 (normalizeStockCode stockCode (Some HK_STOCK)) = true.
Proof.
  intros _ Hd Hl.
  assert (normalizeStockCode stockCode (Some HK_STOCK)
          = String.string_of_list_ascii
              (replicate (5 - String.length (toUpperCase (trim stockCode))) "0"%char)
            +:+ toUpperCase (trim stockCode)) as E.
  { unfold normalizeStockCode. cbn zeta. rewrite (prefix_HK_digits _ Hd).
    destruct (Nat.ltb_spec (String.length (toUpperCase (trim stockCode))) 5) as [?|Hge];
      [done|].
    by replace (5 - String.length (toUpperCase (trim stockCode)))%nat with 0%nat by lia. }
  split; [done|]. rewrite E. apply digits_exactly_intro.
  - rewrite append_length, zeros_length. lia.
  - by rewrite all_chars_append, zeros_digits, Hd.
Qed.

(** X17 for the code 700. *)
Lemma normalizeStockCode_pads_short_HK_code_witness :
  ascii_only "700" = true
  ∧ all_chars is_digit (toUpperCase (trim "700")) = true
  ∧ (String.length (toUpperCase (trim "700")) ≤ 5)%nat
  ∧ digits_exactly 5 (normalizeStockCode "700" (Some HK_STOCK)) = true.
Proof.
  assert (String.length (toUpperCase (trim "700")) ≤ 5)%nat as Hl by (vm_compute; lia).
  split; [reflexivity|]. split; [reflexivity|]. split; [exact Hl|].
  apply (normalizeStockCode_pads_short_HK_code "700" eq_refl eq_refl Hl).
Defined.

(** ** Prices and scores *)

(** The hash, price and score of 600519. *)
Example generateFixedPrice_600519 :
  hash_of (charCodes "600519") = 1591785639
  ∧ generateFixedPrice (charCodes "600519") = 49
  ∧ generateFixedScore (charCodes "600519") = 99.
Proof. by vm_compute. Qed.

(** X18. The hash that [generateFixedPrice] and [generateFixedScore] run
    over the code units is the polynomial in 31 with the code units as
    coefficients, the first one leading (Horner's scheme), wrapped to a
    signed 32-bit integer: the shift, the subtraction and the
    [hash & hash] of each round add up to one multiplication by 31 modulo
    2^32. *)
Theorem generateFixedPrice_hash_is_polynomial (stockCode : list Z) :
  let hash := to_int32 (foldl (λ hash char, 31 * hash + char) 0 stockCode) in
  generateFixedPrice stockCode = 10 + Z.rem (Z.abs hash) 100
  ∧ generateFixedScore stockCode = 60 + Z.rem (Z.abs hash) 40.
Proof.
  cbn zeta. unfold generateFixedPrice, generateFixedScore, hash_of.
  change 0 with (to_int32 0) at 1 3. by rewrite hash_of_polynomial_from.
Qed.

(** X19. Whatever the code, the price is a whole number from 10 to 109 and
    the score a whole number from 60 to 99. *)
Theorem generateFixedPrice_and_score_ranges (stockCode : list Z) :
  10 ≤ generateFixedPrice stockCode ≤ 109 ∧ 60 ≤ generateFixedScore stockCode ≤ 99.
Proof.
  unfold generateFixedPrice, generateFixedScore.
  pose proof (rem_abs_range (hash_of stockCode) 100).
  pose proof (rem_abs_range (hash_of stockCode) 40). lia.
Qed.

(** X20. The recommendation the controllers compute from
    [generateFixedScore] is never the third one: the score is at least 60,
    so the branch for scores of 50 and below is dead; the first is given
    exactly for scores above 70. *)
Theorem recommendation_of_fixed_score (stockCode : list Z) :
  recommendation (generateFixedScore stockCode)
  = (if 70 <? generateFixedScore stockCode then "买入" else "持有").
Proof.
  unfold recommendation.
  pose proof (rem_abs_range (hash_of stockCode) 40) as H.
  unfold generateFixedScore in *.
  destruct (70 <? _); [done|].
  by destruct (Z.ltb_spec 50 (60 + Z.rem (Z.abs (hash_of stockCode)) 40)); [|lia].
Qed.
